(** * jparty: host-event handlers of the session server

    A shallow embedding of [server/session/handle-host-event.ts].  The
    handlers mutate a registry of sessions, read and write per-socket
    data, and emit socket.io events.  Here the registry, the socket store
    and the sequence of effects are one [World] value that every handler
    takes and returns. *)

From Stdlib Require Import QArith.
From stdpp Require Import base option list strings gmap sets.

(** ** Shared enums (package [jparty-shared]) *)

(** The members are the ones the sources name: the handlers use [Lobby],
    [ReadingCategoryNames], [ReadingClueSelection], [ReadingClue] and
    [GameOver]; [getGameComponentState] of the host layout names the
    others. *)
Module SessionState.
Inductive t :=
  | Lobby
  | ClueSelection
  | ReadingCategoryNames
  | ReadingClueSelection
  | ReadingClue
  | ClueTossup
  | ClueResponse
  | WaitingForClueDecision
  | ReadingClueDecision
  | WagerResponse
  | GameOver.

#[global] Instance state_eq_dec : EqDecision t.
Proof. solve_decision. Defined.
End SessionState.

Module SessionTimeoutType.
Inductive t :=
  | Announcement
  | ReadingCategoryName
  | ReadingClueSelection
  | ReadingClue.

#[global] Instance kind_eq_dec : EqDecision t.
Proof. solve_decision. Defined.

Definition to_nat (k : t) : nat :=
  match k with
  | Announcement => 0
  | ReadingCategoryName => 1
  | ReadingClueSelection => 2
  | ReadingClue => 3
  end.

Definition of_nat (n : nat) : t :=
  match n with
  | 0 => Announcement
  | 1 => ReadingCategoryName
  | 2 => ReadingClueSelection
  | _ => ReadingClue
  end.

#[global] Instance kind_countable : Countable t.
Proof. by refine (inj_countable' to_nat of_nat _); intros []. Defined.
End SessionTimeoutType.

(** The keys of [SESSION_ANNOUNCEMENT_MESSAGES] in [ui-constants.ts]. *)
Module SessionAnnouncement.
Inductive t :=
  | StartGame
  | ClueBonusWager
  | ClueBonusAllWager
  | ClueBonusAllPlay
  | FinalClue
  | StartRound
  | StartFinalRound
  | GameOver.
End SessionAnnouncement.

(** Modelled from the spec: the declaration of [TriviaGameSettingsPreset]
    is not among the sources.  [Custom] is the one member the handlers
    name; every other profile is a tagged [Preset]. *)
Inductive TriviaGameSettingsPreset :=
  | Custom
  | Preset (tag : nat).

(** Modelled from the spec: the declaration of [VoiceType] is not among
    the sources.  The narration voice is a value the handlers store and
    forward. *)
Inductive VoiceType := Voice (tag : nat).

(** Modelled from the spec: the declaration of [TriviaGameSettings] is not
    among the sources.  The settings of a custom game are handed to the
    content generator as they come. *)
Inductive TriviaGameSettings := Settings (tag : nat).

(** Modelled from the spec: the type of a generated round is not among the
    sources.  The round is opaque beyond being present or not. *)
Inductive TriviaRound := Round (tag : nat).

(** ** The session entity *)

(** Modelled from the spec: the [Session] class is not among the sources.
    The fields are those of the spec's data model that the handlers read or
    write.  [hosts] maps a socket id to a client id; [timeouts] maps a
    timeout kind to the duration (ms) its live timer was armed with;
    [currentAnnouncement] is absent ([undefined]) or an announcement, and
    the handlers test it for presence. *)
Record Session := mkSession {
  name : string;
  creatorSocketID : string;
  state : SessionState.t;
  hosts : gmap string string;
  triviaGameSettingsPreset : TriviaGameSettingsPreset;
  voiceType : VoiceType;
  currentVoiceLine : string;
  currentAnnouncement : option SessionAnnouncement.t;
  timeouts : gmap SessionTimeoutType.t Q;
  triviaRound : option TriviaRound
}.

Definition set_state (st : SessionState.t) (s : Session) : Session :=
  mkSession (name s) (creatorSocketID s) st (hosts s)
    (triviaGameSettingsPreset s) (voiceType s) (currentVoiceLine s)
    (currentAnnouncement s) (timeouts s) (triviaRound s).

Definition set_hosts (h : gmap string string) (s : Session) : Session :=
  mkSession (name s) (creatorSocketID s) (state s) h
    (triviaGameSettingsPreset s) (voiceType s) (currentVoiceLine s)
    (currentAnnouncement s) (timeouts s) (triviaRound s).

Definition set_triviaGameSettingsPreset (p : TriviaGameSettingsPreset)
    (s : Session) : Session :=
  mkSession (name s) (creatorSocketID s) (state s) (hosts s)
    p (voiceType s) (currentVoiceLine s)
    (currentAnnouncement s) (timeouts s) (triviaRound s).

Definition set_voiceType (v : VoiceType) (s : Session) : Session :=
  mkSession (name s) (creatorSocketID s) (state s) (hosts s)
    (triviaGameSettingsPreset s) v (currentVoiceLine s)
    (currentAnnouncement s) (timeouts s) (triviaRound s).

Definition set_timeouts (t : gmap SessionTimeoutType.t Q) (s : Session)
    : Session :=
  mkSession (name s) (creatorSocketID s) (state s) (hosts s)
    (triviaGameSettingsPreset s) (voiceType s) (currentVoiceLine s)
    (currentAnnouncement s) t (triviaRound s).

Definition set_triviaRound (r : option TriviaRound) (s : Session) : Session :=
  mkSession (name s) (creatorSocketID s) (state s) (hosts s)
    (triviaGameSettingsPreset s) (voiceType s) (currentVoiceLine s)
    (currentAnnouncement s) (timeouts s) r.

(** Modelled from the spec: [Session.connectHost] is not among the
    sources.  Joining records the connection, with its client id, in
    [hosts]. *)
Definition connectHost (socketID clientID : string) (s : Session) : Session :=
  set_hosts (<[socketID := clientID]> (hosts s)) s.

(** Modelled from the spec: [Session.disconnectHost] is not among the
    sources.  Leaving removes the connection from [hosts]. *)
Definition disconnectHost (socketID : string) (s : Session) : Session :=
  set_hosts (delete socketID (hosts s)) s.

(** Modelled from the spec: [Session.resetGame] is not among the sources.
    Play-again leads back to [Lobby]; the round is retained. *)
Definition resetGame (s : Session) : Session :=
  set_state SessionState.Lobby s.

(** The content generator is an external collaborator: what it answers
    for a request is an input of the model. *)
Inductive GenerationOutcome :=
  | Generated (round : TriviaRound)
  | GenerationFailed (error : string).

(** Modelled from the spec: [Session.generateTriviaGame] is not among the
    sources.  On success the preset becomes [Custom] and the round is
    stored; on failure it throws and the session is as before. *)
Definition generateTriviaGame (outcome : GenerationOutcome) (s : Session)
    : Session + string :=
  match outcome with
  | Generated round =>
      inl (set_triviaRound (Some round) (set_triviaGameSettingsPreset Custom s))
  | GenerationFailed error => inr error
  end.

(** ** Sockets, events and the world *)

(** What the server keeps on a socket.io socket: the ambient
    [sessionName] field ([(socket as any).sessionName], undefined until a
    join) and the rooms the socket has joined. *)
Module Socket.
Record t := mk {
  sessionName : option string;
  rooms : gset string
}.
End Socket.

(** The addressing forms the handlers use. *)
Inductive Audience :=
  | ToSocket (socketID : string)                  (* socket.emit *)
  | ToHosts (ids : gset string)                   (* io.to(keys).emit *)
  | ToHostsExcept (ids : gset string) (actor : string)
                                                  (* io.to(keys).except(id) *)
  | RoomExceptSender (room : option string) (sender : string)
                                                  (* socket.broadcast.to(room) *)
  | ToSession (room : option string).             (* emitters given a name *)

Inductive Event :=
  | UpdateGameSettingsPreset (preset : TriviaGameSettingsPreset)
  | UpdateVoiceType (voiceType : VoiceType) (modernVoicesDisabled : bool)
  | Message (text : string) (isError : bool)
  | CancelGame
  | StateUpdate (st : SessionState.t)
  | TriviaRoundUpdate (round : option TriviaRound)
  | LeaderboardUpdate.

(** Everything a handler does besides changing sessions and sockets, in
    the order it happens. *)
Inductive Effect :=
  | Emit (to : Audience) (event : Event)
  | Callback (socketID : string) (success : bool)
  | TimeoutRestarted (session : string) (kind : SessionTimeoutType.t)
      (durationMs : Q).

Record World := mkWorld {
  sessions : gmap string Session;
  sockets : gmap string Socket.t;
  useOpenAITTS : bool;
  trace : list Effect
}.

Definition set_sessions (m : gmap string Session) (w : World) : World :=
  mkWorld m (sockets w) (useOpenAITTS w) (trace w).

Definition set_sockets (m : gmap string Socket.t) (w : World) : World :=
  mkWorld (sessions w) m (useOpenAITTS w) (trace w).

Definition perform (e : Effect) (w : World) : World :=
  mkWorld (sessions w) (sockets w) (useOpenAITTS w) (trace w ++ [e]).

Definition emit (to : Audience) (event : Event) (w : World) : World :=
  perform (Emit to event) w.

(** The sockets that have joined [room]; no socket is in an undefined
    room. *)
Definition inRoom (w : World) (room : option string) : gset string :=
  match room with
  | Some r => dom (filter (λ kv, r ∈ Socket.rooms kv.2) (sockets w))
  | None => ∅
  end.

(** Who receives an emission: a list of socket ids addresses those
    sockets, a room addresses the sockets that joined it. *)
Definition recipients (w : World) (to : Audience) : gset string :=
  match to with
  | ToSocket socketID => {[socketID]}
  | ToHosts ids => ids
  | ToHostsExcept ids actor => ids ∖ {[actor]}
  | RoomExceptSender room sender => inRoom w room ∖ {[sender]}
  | ToSession room => inRoom w room
  end.

(** ** session-utils *)

(** Modelled from the spec: [getSession] of [session-utils] is not among
    the sources.  It is a pure lookup in the registry; the name a handler
    receives may be undefined (a socket that joined nothing), and then
    nothing is found. *)
Definition getSession (w : World) (sessionName : option string)
    : option Session :=
  n ← sessionName; sessions w !! n.

(** Writes back the session object found under [sessionName]: the
    handlers mutate that object in place. *)
Definition putSession (sessionName : option string) (s : Session) (w : World)
    : World :=
  match sessionName with
  | Some n => set_sessions (<[n := s]> (sessions w)) w
  | None => w
  end.

(** Modelled from the spec: the preset of a new session, which the spec
    does not fix. *)
Definition initialPreset : TriviaGameSettingsPreset := Preset 0.

(** Modelled from the spec: the voice of a new session, which the spec
    does not fix. *)
Definition initialVoiceType : VoiceType := Voice 0.

(** Modelled from the spec: the constructor of [Session] is not among the
    sources.  A new session is in [Lobby], its creator is its first host,
    and nothing is being spoken or timed. *)
Definition newSession (sessionName creatorSocketID creatorClientID : string)
    : Session :=
  mkSession sessionName creatorSocketID SessionState.Lobby
    {[creatorSocketID := creatorClientID]}
    initialPreset initialVoiceType "" None ∅ None.

(** Modelled from the spec: [createSession] is not among the sources.  It
    fails ([None]) if the name is already present; otherwise it constructs a session in [Lobby], with
    its creator as the first host, and stores it. *)
Definition createSession (sessionName creatorSocketID creatorClientID : string)
    (w : World) : option World :=
  match sessions w !! sessionName with
  | Some _ => None
  | None =>
      Some (set_sessions
              (<[sessionName :=
                   newSession sessionName creatorSocketID creatorClientID]>
                 (sessions w)) w)
  end.

(** Modelled from the spec: [deleteSession] is not among the sources.  It
    removes the session, and with it every timer the session owns; deleting an absent name does
    nothing. *)
Definition deleteSession (sessionName : option string) (w : World) : World :=
  match sessionName with
  | Some n => set_sessions (delete n (sessions w)) w
  | None => w
  end.

(** What is kept on the socket [socketID]; a socket never stored has no
    session name and has joined no room. *)
Definition socketData (w : World) (socketID : string) : Socket.t :=
  default (Socket.mk None ∅) (sockets w !! socketID).

(** Modelled from the spec: [joinSessionAsHost] is not among the sources.
    It attaches the connection to an existing session: the socket joins the room named after the session
    and its ambient [sessionName] becomes that name.  It is the only
    function of [handleConnect] that receives the socket, so the field the
    router reads is written here. *)
Definition joinSessionAsHost (socketID : string) (sessionName : option string)
    (w : World) : World :=
  match sessionName, getSession w sessionName with
  | Some n, Some _ =>
      set_sockets
        (<[socketID :=
             Socket.mk (Some n) ({[n]} ∪ Socket.rooms (socketData w socketID))]>
           (sockets w)) w
  | _, _ => w
  end.

(** Modelled from the spec: [restartTimeout] is not among the sources.  It
    is the replace-on-schedule path: the live timer of (session, kind), if any, is cancelled and a new
    one armed with the given duration. *)
Definition restartTimeout (sessionName : option string)
    (kind : SessionTimeoutType.t) (durationMs : Q) (w : World) : World :=
  match sessionName, getSession w sessionName with
  | Some n, Some s =>
      perform (TimeoutRestarted n kind durationMs)
        (putSession sessionName
           (set_timeouts (<[kind := durationMs]> (timeouts s)) s) w)
  | _, _ => w
  end.

(** Modelled from the spec: [emitStateUpdate] is not among the sources.
    It sends the state of the session named to that session. *)
Definition emitStateUpdate (sessionName : option string) (w : World) : World :=
  match getSession w sessionName with
  | Some s => emit (ToSession sessionName) (StateUpdate (state s)) w
  | None => w
  end.

(** Modelled from the spec: [emitTriviaRoundUpdate] is not among the
    sources.  It sends the round of the session named to that session. *)
Definition emitTriviaRoundUpdate (sessionName : option string) (w : World)
    : World :=
  match getSession w sessionName with
  | Some s =>
      emit (ToSession sessionName) (TriviaRoundUpdate (triviaRound s)) w
  | None => w
  end.

(** Modelled from the spec: [emitLeaderboardUpdate] is not among the
    sources.  It sends a leaderboard snapshot to the socket it is given. *)
Definition emitLeaderboardUpdate (socketID : string) (w : World) : World :=
  emit (ToSocket socketID) LeaderboardUpdate w.

(** Modelled from the spec: [emitServerError] is not among the sources.
    It surfaces an error to the connection as a message with the error
    flag. *)
Definition emitServerError (error : string) (socketID : string) (w : World)
    : World :=
  emit (ToSocket socketID) (Message error true) w.

(** ** The handlers of [handle-host-event.ts] *)

(** Each handler is written in the order of its statements.  A handler
    holds a reference to the session object it found, so a field it
    assigns is written back with [putSession].  Calls of [debugLog] only
    write to the server log and are left out. *)

(** The random-word generator is an external library: the words it
    returns, call after call, are an input of the model.  The do-while
    loop of [handleConnect] draws until a word names no session; on a
    finite list of draws that are all taken the loop has not ended
    ([None]). *)
Fixpoint generateSessionName (w : World) (draws : list string)
    : option string :=
  match draws with
  | [] => None
  | candidate :: rest =>
      match getSession w (Some candidate) with
      | Some _ => generateSessionName w rest
      | None => Some candidate
      end
  end.

(** [handleConnect] has a result when the loop has found a name;
    [createSession] is then called on a name that is not in the registry. *)
Definition handleConnect (socket : string) (clientID : string)
    (draws : list string) (w : World) : option World :=
  sessionName ← generateSessionName w draws;
  w1 ← createSession sessionName socket clientID w;
  Some (joinSessionAsHost socket (Some sessionName) w1).

Definition handleUpdateGameSettingsPreset (socket : string)
    (sessionName : option string)
    (gameSettingsPreset : TriviaGameSettingsPreset) (w : World) : World :=
  match getSession w sessionName with
  | None => w
  | Some session =>
      if decide (state session ≠ SessionState.Lobby) then w
      else if decide (socket ≠ creatorSocketID session) then w
      else
        let session' :=
          set_triviaGameSettingsPreset gameSettingsPreset session in
        emit (ToHostsExcept (dom (hosts session')) socket)
          (UpdateGameSettingsPreset gameSettingsPreset)
          (putSession sessionName session' w)
  end.

Definition handleUpdateVoiceType (socket : string)
    (sessionName : option string) (voiceType : VoiceType) (w : World)
    : World :=
  match getSession w sessionName with
  | None => w
  | Some session =>
      let session' := set_voiceType voiceType session in
      emit (ToHosts (dom (hosts session')))
        (UpdateVoiceType voiceType (negb (useOpenAITTS w)))
        (putSession sessionName session' w)
  end.

(** The [switch] on the state has three cases; the block of
    [ReadingCategoryNames] is not followed by a [break], so control runs
    on into the block of [ReadingClueSelection]. *)
Definition handleUpdateVoiceDuration (socket : string)
    (sessionName : option string) (voiceLine : string) (durationSec : Q)
    (w : World) : World :=
  match getSession w sessionName with
  | None => w
  | Some session =>
      if decide (socket ≠ creatorSocketID session) then w
      else if decide (voiceLine ≠ currentVoiceLine session) then w
      else
        let durationMs := Qmult durationSec (inject_Z 1000) in
        let w1 :=
          match currentAnnouncement session with
          | Some _ =>
              restartTimeout sessionName SessionTimeoutType.Announcement
                durationMs w
          | None => w
          end in
        let caseReadingClueSelection :=
          restartTimeout sessionName SessionTimeoutType.ReadingClueSelection
            durationMs in
        match state session with
        | SessionState.ReadingCategoryNames =>
            caseReadingClueSelection
              (restartTimeout sessionName
                 SessionTimeoutType.ReadingCategoryName durationMs w1)
        | SessionState.ReadingClueSelection =>
            caseReadingClueSelection w1
        | SessionState.ReadingClue =>
            restartTimeout sessionName SessionTimeoutType.ReadingClue
              durationMs w1
        | _ => w1
        end
  end.

Definition handleLeaveSession (socket : string) (sessionName : option string)
    (w : World) : World :=
  match getSession w sessionName with
  | None => w
  | Some session =>
      let w1 := putSession sessionName (disconnectHost socket session) w in
      if decide (socket = creatorSocketID session) then
        emit (RoomExceptSender sessionName socket) CancelGame
          (deleteSession sessionName w1)
      else w1
  end.

(** Lines 105 to 108 of [handleAttemptSpectate]: the connection is recorded
    as a host of the session found, joins it, and is told so. *)
Definition spectateJoin (socket : string) (sessionName : string)
    (clientID : string) (session : Session) (w : World) : World :=
  let w1 :=
    putSession (Some sessionName) (connectHost socket clientID session) w in
  let w2 := joinSessionAsHost socket (Some sessionName) w1 in
  emit (ToSocket socket)
    (Message ("Joined session: " +:+ sessionName +:+ " as spectator") false) w2.

(** After the join the handler calls [handleLeaveSession] with the
    socket's ambient session name, read at that moment. *)
Definition handleAttemptSpectate (socket : string) (sessionName : string)
    (clientID : string) (w : World) : World :=
  match getSession w (Some sessionName) with
  | None =>
      emit (ToSocket socket)
        (Message ("Couldn't find session a session named: " +:+ sessionName)
           true) w
  | Some session =>
      if decide (socket ∈ dom (hosts session)) then
        emit (ToSocket socket)
          (Message ("Already a host in session: " +:+ sessionName) true) w
      else
        let w3 := spectateJoin socket sessionName clientID session w in
        handleLeaveSession socket (Socket.sessionName (socketData w3 socket)) w3
  end.

(** [session.generateTriviaGame] is awaited inside a [try]; the model runs
    the handler in one piece, with the collaborator's answer given by
    [generator]. *)
Definition handleGenerateCustomGame (socket : string)
    (sessionName : option string) (gameSettings : TriviaGameSettings)
    (generator : TriviaGameSettings → GenerationOutcome) (w : World)
    : World :=
  match getSession w sessionName with
  | None => w
  | Some session =>
      if decide (state session ≠ SessionState.Lobby) then w
      else if decide (socket ≠ creatorSocketID session) then w
      else
        match generateTriviaGame (generator gameSettings) session with
        | inr e =>
            perform (Callback socket false) (emitServerError e socket w)
        | inl session' =>
            let w1 := putSession sessionName session' w in
            let w2 :=
              emit (ToHosts (dom (hosts session')))
                (UpdateGameSettingsPreset Custom) w1 in
            let w3 :=
              emit (ToSocket socket)
                (Message "Custom settings were saved successfully" false)
                w2 in
            let w4 := emitTriviaRoundUpdate sessionName w3 in
            perform (Callback socket true) w4
        end
  end.

Definition handlePlayAgain (socket : string) (sessionName : option string)
    (w : World) : World :=
  match getSession w sessionName with
  | None => w
  | Some session =>
      if decide (state session ≠ SessionState.GameOver) then w
      else
        let w1 := putSession sessionName (resetGame session) w in
        let w2 := emitStateUpdate sessionName w1 in
        let w3 := emitTriviaRoundUpdate sessionName w2 in
        emitLeaderboardUpdate socket w3
  end.

(** The inbound events with their arguments. *)
Module HostSocket.
Inductive t :=
  | Connect (clientID : string)
  | UpdateGameSettingsPreset (gameSettingsPreset : TriviaGameSettingsPreset)
  | UpdateVoiceType (voiceType : VoiceType)
  | UpdateVoiceDuration (voiceLine : string) (durationSec : Q)
  | AttemptSpectate (sessionName : string) (clientID : string)
  | LeaveSession
  | GenerateCustomGame (gameSettings : TriviaGameSettings)
  | PlayAgain.
End HostSocket.

(** What the outside world contributes to one event: the words the
    random-word generator returns and the content generator's answers. *)
Record Collaborators := mkCollaborators {
  randomWords : list string;
  generator : TriviaGameSettings → GenerationOutcome
}.

(** [Connect] and [AttemptSpectate] carry their own target; every other
    handler is given the socket's ambient session name.  No modelled
    handler throws past its own [try], so the router's [catch] has nothing
    to translate. *)
Definition handleHostEvent (socket : string) (event : HostSocket.t)
    (env : Collaborators) (w : World) : option World :=
  match event with
  | HostSocket.Connect clientID =>
      handleConnect socket clientID (randomWords env) w
  | HostSocket.AttemptSpectate target clientID =>
      Some (handleAttemptSpectate socket target clientID w)
  | _ =>
      let sessionName := Socket.sessionName (socketData w socket) in
      Some
        match event with
        | HostSocket.UpdateGameSettingsPreset preset =>
            handleUpdateGameSettingsPreset socket sessionName preset w
        | HostSocket.UpdateVoiceType voiceType =>
            handleUpdateVoiceType socket sessionName voiceType w
        | HostSocket.UpdateVoiceDuration voiceLine durationSec =>
            handleUpdateVoiceDuration socket sessionName voiceLine
              durationSec w
        | HostSocket.LeaveSession => handleLeaveSession socket sessionName w
        | HostSocket.GenerateCustomGame gameSettings =>
            handleGenerateCustomGame socket sessionName gameSettings
              (generator env) w
        | HostSocket.PlayAgain => handlePlayAgain socket sessionName w
        | _ => w
        end
  end.

(** A run of the router over a sequence of inbound events, each with the
    socket it arrives on and what the collaborators answer. *)
Fixpoint handleHostEvents
    (inputs : list (string * HostSocket.t * Collaborators)) (w : World)
    : option World :=
  match inputs with
  | [] => Some w
  | (socket, event, env) :: rest =>
      w1 ← handleHostEvent socket event env w;
      handleHostEvents rest w1
  end.

(** The server starts with no session and no socket. *)
Definition initialWorld (useOpenAITTS : bool) : World :=
  mkWorld ∅ ∅ useOpenAITTS [].

(** ** Observations on a run *)

(** The effects a handler added to the trace of [w] to reach [w']. *)
Definition effectsSince (w w' : World) : list Effect :=
  drop (length (trace w)) (trace w').

(** [restartTimeout] over a list of kinds, first to last. *)
Definition restartAll (sessionName : option string) (durationMs : Q)
    (kinds : list SessionTimeoutType.t) (w : World) : World :=
  foldl (λ acc kind, restartTimeout sessionName kind durationMs acc) w kinds.

(** The case blocks the [switch] of [handleUpdateVoiceDuration] runs
    through when entered at the label of [st]: a block without [break]
    runs on into the next one. *)
Definition switchKinds (st : SessionState.t) : list SessionTimeoutType.t :=
  match st with
  | SessionState.ReadingCategoryNames =>
      [SessionTimeoutType.ReadingCategoryName;
       SessionTimeoutType.ReadingClueSelection]
  | SessionState.ReadingClueSelection =>
      [SessionTimeoutType.ReadingClueSelection]
  | SessionState.ReadingClue => [SessionTimeoutType.ReadingClue]
  | _ => []
  end.

(** The timeout kinds restarted, in order, among a list of effects. *)
Definition restartedKinds (es : list Effect) : list SessionTimeoutType.t :=
  omap (λ e, match e with
             | TimeoutRestarted _ kind _ => Some kind
             | _ => None
             end) es.

(** The spec's words, for comparison with the handler: "a direct mapping
    from current state to timeout kind", every other state mapping to no
    phase timeout. *)
Definition specPhaseTimeout (st : SessionState.t)
    : option SessionTimeoutType.t :=
  match st with
  | SessionState.ReadingCategoryNames =>
      Some SessionTimeoutType.ReadingCategoryName
  | SessionState.ReadingClueSelection =>
      Some SessionTimeoutType.ReadingClueSelection
  | SessionState.ReadingClue => Some SessionTimeoutType.ReadingClue
  | _ => None
  end.

(** The announcement timer is one of the restarts exactly when an
    announcement is current. *)
Definition announcementKinds (s : Session) : list SessionTimeoutType.t :=
  match currentAnnouncement s with
  | Some _ => [SessionTimeoutType.Announcement]
  | None => []
  end.

(** The guard of the two settings operations: the session exists, is in
    the lobby, and the actor is its creator. *)
Definition mayConfigure (w : World) (socket : string)
    (sessionName : option string) : Prop :=
  ∃ session, getSession w sessionName = Some session
    ∧ state session = SessionState.Lobby
    ∧ socket = creatorSocketID session.

(** A connection is a host of the session stored under [n]. *)
Definition isHostOf (w : World) (socket n : string) : Prop :=
  ∃ s, sessions w !! n = Some s ∧ socket ∈ dom (hosts s).

(** The names carried by the live sessions. *)
Definition liveNames (w : World) : list string :=
  name <$> (map_to_list (sessions w)).*2.

(** Every session is stored under the name it carries. *)
Definition registryWf (w : World) : Prop :=
  map_Forall (λ n s, name s = n) (sessions w).

(** ** A small world to run the handlers on *)

(** Two sessions: "quiz", created by "sock-host" and spectated by
    "sock-guest", and "blue", created by "sock-other". *)
Definition quizSession (st : SessionState.t)
    (announcement : option SessionAnnouncement.t) : Session :=
  mkSession "quiz" "sock-host" st
    (<["sock-host" := "client-a"]> {["sock-guest" := "client-b"]})
    (Preset 0) (Voice 0) "Welcome to the game" announcement ∅ None.

Definition blueSession : Session :=
  mkSession "blue" "sock-other" SessionState.Lobby
    {["sock-other" := "client-c"]} (Preset 0) (Voice 0) "" None ∅ None.

Definition demoSockets : gmap string Socket.t :=
  <["sock-host" := Socket.mk (Some "quiz") {["quiz"]}]>
    (<["sock-guest" := Socket.mk (Some "quiz") {["quiz"]}]>
       {["sock-other" := Socket.mk (Some "blue") {["blue"]}]}).

Definition demoWorld (st : SessionState.t)
    (announcement : option SessionAnnouncement.t) : World :=
  mkWorld (<["quiz" := quizSession st announcement]> {["blue" := blueSession]})
    demoSockets false [].

(** Two connections in a row; the second one first draws the name the
    first session already carries. *)
Definition demoConnects : list (string * HostSocket.t * Collaborators) :=
  [("sock-host", HostSocket.Connect "client-a",
    mkCollaborators ["quiz"; "blue"] (λ _, Generated (Round 0)));
   ("sock-other", HostSocket.Connect "client-c",
    mkCollaborators ["quiz"; "quiz"; "blue"] (λ _, Generated (Round 0)))].

(** ** The registry across one event *)

(** The name of the session an event is aimed at: the name [Connect]
    generates, the name [AttemptSpectate] carries, and for every other
    event the ambient session name of the socket. *)
Definition eventSession (socket : string) (event : HostSocket.t)
    (env : Collaborators) (w : World) : option string :=
  match event with
  | HostSocket.Connect _ => generateSessionName w (randomWords env)
  | HostSocket.AttemptSpectate target _ => Some target
  | _ => Socket.sessionName (socketData w socket)
  end.

(** The event that moves a connection from one session to another. *)
Definition isSpectate (event : HostSocket.t) : bool :=
  match event with
  | HostSocket.AttemptSpectate _ _ => true
  | _ => false
  end.

(** The two events the router handles before a socket has a session. *)
Definition preSession (event : HostSocket.t) : bool :=
  match event with
  | HostSocket.Connect _ | HostSocket.AttemptSpectate _ _ => true
  | _ => false
  end.

(** What one event may do to the session stored under one name, seen from
    the acting socket: a session that stays keeps its name and its
    creator; one that goes is removed by its creator; one that appears was
    created by the socket, in the lobby. *)
Definition slotStep (socket : string) (mayDelete mayCreate : bool)
    (before after : option Session) : Prop :=
  match before, after with
  | Some s, Some s' =>
      name s' = name s ∧ creatorSocketID s' = creatorSocketID s
  | Some s, None => mayDelete = true ∧ socket = creatorSocketID s
  | None, Some s' =>
      mayCreate = true ∧ creatorSocketID s' = socket
      ∧ state s' = SessionState.Lobby
  | None, None => True
  end.

(** The events whose handlers reach [deleteSession]. *)
Definition mayLeave (event : HostSocket.t) : bool :=
  match event with
  | HostSocket.LeaveSession | HostSocket.AttemptSpectate _ _ => true
  | _ => false
  end.

(** The event whose handler reaches [createSession]. *)
Definition isConnect (event : HostSocket.t) : bool :=
  match event with
  | HostSocket.Connect _ => true
  | _ => false
  end.

(** An effect stays with the acting socket and the session [o] of the
    world [w]: an emission goes to the acting socket, to the hosts of that
    session, or to its room; a callback answers the acting socket; a
    timeout restarted is one of that session. *)
Definition addressedTo (w : World) (socket : string) (o : option string)
    (e : Effect) : Prop :=
  match e with
  | Emit (ToSocket id) _ => id = socket
  | Emit (ToHosts ids) _ =>
      ∃ s, getSession w o = Some s ∧ ids = dom (hosts s)
  | Emit (ToHostsExcept ids actor) _ =>
      actor = socket ∧ ∃ s, getSession w o = Some s ∧ ids = dom (hosts s)
  | Emit (RoomExceptSender room sender) _ => room = o ∧ sender = socket
  | Emit (ToSession room) _ => room = o
  | Callback id _ => id = socket
  | TimeoutRestarted n _ _ => Some n = o
  end.

(** The creator of every live session is one of its hosts. *)
Definition creatorHosts (w : World) : Prop :=
  map_Forall (λ _ s, creatorSocketID s ∈ dom (hosts s)) (sessions w).

(** ** The host layout ([HostLayout.tsx]) *)

Module HostLayout.

(** Which game component the host displays. *)
Module GameComponentState.
Inductive t :=
  | Lobby
  | Board
  | Clue
  | Wager
  | GameOver.
End GameComponentState.

(** The [switch] has a case for nine of the eleven session states; for
    [ReadingCategoryNames] and [ReadingClueSelection] no case matches and
    the function returns nothing ([undefined]). *)
Definition getGameComponentState (sessionState : SessionState.t)
    : option GameComponentState.t :=
  match sessionState with
  | SessionState.Lobby => Some GameComponentState.Lobby
  | SessionState.ClueSelection => Some GameComponentState.Board
  | SessionState.ReadingClue
  | SessionState.ClueTossup
  | SessionState.ClueResponse
  | SessionState.WaitingForClueDecision
  | SessionState.ReadingClueDecision => Some GameComponentState.Clue
  | SessionState.WagerResponse => Some GameComponentState.Wager
  | SessionState.GameOver => Some GameComponentState.GameOver
  | SessionState.ReadingCategoryNames
  | SessionState.ReadingClueSelection => None
  end.

(** The round as the layout reads it: [triviaRound.categories[i].clues[j]].
    The declarations are in [jparty-shared]; a clue is opaque here. *)
Inductive TriviaClue := ClueContent (tag : nat).

Record TriviaCategory := mkCategory {
  clues : list TriviaClue
}.

Record TriviaRound := mkRound {
  categories : list TriviaCategory
}.

(** The fields of the layout context that [HostLayout] reads. *)
Record LayoutContext := mkContext {
  sessionState : SessionState.t;
  triviaRound : option TriviaRound;
  categoryIndex : Z;
  clueIndex : Z
}.

(** [array[i]] for an integer [i]: the element, or [undefined] when [i] is
    negative or past the end. *)
Definition jsIndex {A} (l : list A) (i : Z) : option A :=
  if decide (0 ≤ i)%Z then l !! Z.to_nat i else None.

(** The component states of [HostLayout] that [getGameComponent] reads. *)
Record LayoutState := mkLayoutState {
  isMuted : bool;
  numSubmittedResponders : Z;
  numResponders : Z;
  displayCorrectAnswer : bool
}.

(** The elements [getGameComponent] returns, with their props; a prop left
    out is [None]. *)
Inductive Element :=
  | HostLobby
  | HostBoard (round : TriviaRound)
  | HostClue (triviaCategory : TriviaCategory)
      (triviaClue : option TriviaClue)
      (responders : option (Z * Z)) (correctAnswer : option bool)
  | HostWager (triviaCategory : TriviaCategory)
      (triviaClue : option TriviaClue) (responders : Z * Z)
  | HostGameOver.

(** What is thrown: an [Error] with its message, or the [TypeError] of
    reading a property of [undefined]. *)
Inductive Thrown :=
  | Error (message : string)
  | TypeError.

Inductive Outcome :=
  | Renders (element : Element)
  | RendersNothing
  | Throws (thrown : Thrown).

Definition getGameComponent (context : LayoutContext) (st : LayoutState)
    : Outcome :=
  if decide (sessionState context = SessionState.Lobby) then
    Renders HostLobby
  else
    match triviaRound context with
    | None => Throws (Error "HostLayout: missing trivia round")
    | Some round =>
        if decide (sessionState context = SessionState.ClueSelection) then
          Renders (HostBoard round)
        else if decide (categoryIndex context < 0 ∨ clueIndex context < 0)%Z
        then Throws (Error "HostLayout: missing current clue")
        else
          match jsIndex (categories round) (categoryIndex context) with
          | None => Throws TypeError
          | Some triviaCategory =>
              let triviaClue :=
                jsIndex (clues triviaCategory) (clueIndex context) in
              let responders :=
                (numSubmittedResponders st, numResponders st) in
              if decide (sessionState context = SessionState.ReadingClue
                         ∨ sessionState context = SessionState.ClueTossup)
              then Renders (HostClue triviaCategory triviaClue None None)
              else if decide (sessionState context
                              = SessionState.ClueResponse)
              then Renders (HostClue triviaCategory triviaClue
                              (Some responders) None)
              else if decide (sessionState context
                              = SessionState.WagerResponse)
              then Renders (HostWager triviaCategory triviaClue responders)
              else if decide (sessionState context
                              = SessionState.WaitingForClueDecision
                              ∨ sessionState context
                                = SessionState.ReadingClueDecision)
              then Renders (HostClue triviaCategory triviaClue None
                              (Some (displayCorrectAnswer st)))
              else if decide (sessionState context = SessionState.GameOver)
              then Renders HostGameOver
              else RendersNothing
          end
    end.

(** The game component an element belongs to, by the names of the two. *)
Definition componentOf (element : Element) : GameComponentState.t :=
  match element with
  | HostLobby => GameComponentState.Lobby
  | HostBoard _ => GameComponentState.Board
  | HostClue _ _ _ _ => GameComponentState.Clue
  | HostWager _ _ _ => GameComponentState.Wager
  | HostGameOver => GameComponentState.GameOver
  end.

Inductive SoundEffect :=
  | GameMusic
  | LobbyMusic.

(** [SessionState] is a numeric enum (the layout compares its members with
    [>]); its declaration is not among the sources, so the number of each
    member is the parameter [ordinal].  [toggleMute] returns the new
    [isMuted] and the sound effects played. *)
Definition toggleMute (ordinal : SessionState.t → Z)
    (context : LayoutContext) (muted : bool) : bool * list SoundEffect :=
  (muted,
   if negb muted then
     if decide (ordinal (sessionState context)
                > ordinal SessionState.Lobby)%Z
     then [GameMusic] else [LobbyMusic]
   else []).

(** The effect that runs when the session state changes. *)
Definition musicOnStateChange (ordinal : SessionState.t → Z)
    (context : LayoutContext) : list SoundEffect :=
  if decide (ordinal (sessionState context) > ordinal SessionState.Lobby)%Z
  then [GameMusic] else [].

End HostLayout.

(** ** The speech request ([api-requests/tts.ts]) *)

Module Tts.

(** The two variables of [process.env] the module reads: a string, or
    undefined. *)
Record Env := mkEnv {
  OPENAI_SECRET_KEY : option string;
  USE_OPENAI_TTS : option string
}.

(** JavaScript truthiness of a string-or-undefined: undefined and the
    empty string are falsy, every other string is truthy. *)
Definition truthy (v : option string) : bool :=
  match v with
  | Some s => negb (String.eqb s "")
  | None => false
  end.

(** The request [fetch] is given.  A template literal renders an undefined
    key as the word "undefined". *)
Record Request := mkRequest {
  url : string;
  method : string;
  authorization : string;
  contentType : string;
  model : string;
  voice : string;
  input : string
}.

Record Response := mkResponse {
  ok : bool;
  text : string;
  arrayBuffer : list Byte.byte
}.

(** [fetch] resolves with a response or rejects. *)
Inductive Fetched :=
  | Resolved (response : Response)
  | Rejected (error : string).

Inductive Result :=
  | Returned (audio : option string)
  | Threw (error : string).

(** The check the module runs when it is loaded: without a key it throws
    and nothing of the module can be called. *)
Definition moduleLoads (env : Env) : bool := truthy (OPENAI_SECRET_KEY env).

(** [formatDebugLog] (of [misc/log], not among the sources), the base64
    rendering of [Buffer] and the network are parameters.  The result is
    the requests sent and what the function returns or throws. *)
Definition getVoiceBase64Audio (env : Env)
    (formatDebugLog : string → string)
    (toBase64 : list Byte.byte → string)
    (fetch : Request → Fetched) (voiceLine : string)
    : list Request * Result :=
  if negb (truthy (USE_OPENAI_TTS env)) then ([], Returned None)
  else
    let request :=
      mkRequest "https://api.openai.com/v1/audio/speech" "POST"
        ("Bearer " +:+ default "undefined" (OPENAI_SECRET_KEY env))
        "application/json" "tts-1" "onyx" voiceLine in
    ([request],
     match fetch request with
     | Rejected error => Threw error
     | Resolved response =>
         if negb (ok response) then
           Threw (formatDebugLog
                    ("failed to fetch TTS audio from OpenAI: "
                     +:+ text response))
         else Returned (Some (toBase64 (arrayBuffer response)))
     end).

(** Loading the module and then calling the function: when the load
    check throws, the function is never reached. *)
Definition loadAndCall (env : Env)
    (formatDebugLog : string → string)
    (toBase64 : list Byte.byte → string)
    (fetch : Request → Fetched) (voiceLine : string)
    : list Request * Result :=
  if negb (moduleLoads env) then
    ([], Threw (formatDebugLog
                  "attempted to connect to OpenAI without API key"))
  else getVoiceBase64Audio env formatDebugLog toBase64 fetch voiceLine.

End Tts.

(** ** The display tables ([ui-constants.ts]) *)

Module UiConstants.

Module TriviaRoundType.
Inductive t := Standard.
End TriviaRoundType.

Module TriviaClueBonus.
Inductive t :=
  | None
  | Wager
  | AllWager
  | AllPlay.
End TriviaClueBonus.

Module FeedbackType.
Inductive t :=
  | Bug
  | TriviaData
  | Suggestion.
End FeedbackType.

Definition BACKGROUND_COLOR : string := "#0d47a1".
Definition BACKGROUND_ACCENT_COLOR : string := "#00008b".

Definition TRIVIA_ROUND_TYPE_DISPLAY_NAMES (k : TriviaRoundType.t) : string :=
  match k with
  | TriviaRoundType.Standard => "Standard"
  end.

Definition TRIVIA_ROUND_TYPE_DESCRIPTIONS (k : TriviaRoundType.t) : string :=
  match k with
  | TriviaRoundType.Standard =>
      "A random selection of categories with increasing clue value"
  end.

Definition TRIVIA_CLUE_BONUS_DISPLAY_NAMES (k : TriviaClueBonus.t) : string :=
  match k with
  | TriviaClueBonus.None => "None"
  | TriviaClueBonus.Wager => "Wager"
  | TriviaClueBonus.AllWager => "All Wager"
  | TriviaClueBonus.AllPlay => "All Play"
  end.

Definition TRIVIA_CLUE_BONUS_DESCRIPTIONS (k : TriviaClueBonus.t) : string :=
  match k with
  | TriviaClueBonus.None => "A normal clue without any bonuses"
  | TriviaClueBonus.Wager => "Responder may wager before seeing the clue"
  | TriviaClueBonus.AllWager =>
      "All solvent players may wager before seeing the clue"
  | TriviaClueBonus.AllPlay =>
      "All players may attempt a response. Incorrect responses aren't penalized"
  end.

Definition SESSION_ANNOUNCEMENT_MESSAGES (k : SessionAnnouncement.t)
    : string :=
  match k with
  | SessionAnnouncement.StartGame => "The game is starting!"
  | SessionAnnouncement.ClueBonusWager => "Clue bonus: wager!"
  | SessionAnnouncement.ClueBonusAllWager => "Clue bonus: all wager!"
  | SessionAnnouncement.ClueBonusAllPlay => "Clue bonus: all play!"
  | SessionAnnouncement.FinalClue => "This is the final clue for this round!"
  | SessionAnnouncement.StartRound => "A new round is starting!"
  | SessionAnnouncement.StartFinalRound => "The final round is starting!"
  | SessionAnnouncement.GameOver => "Game over!"
  end.

Definition FEEDBACK_TYPE_DISPLAY_NAMES (k : FeedbackType.t) : string :=
  match k with
  | FeedbackType.Bug => "Report a bug"
  | FeedbackType.TriviaData => "Report bad trivia data"
  | FeedbackType.Suggestion => "Make a suggestion/comment"
  end.

End UiConstants.

(** * Properties *)

(** ** Ground facts about the world operations *)

Section world_facts.
Implicit Types (w : World) (o : option string) (s : Session).

Lemma getSession_Some w o s :
  getSession w o = Some s → ∃ n, o = Some n ∧ sessions w !! n = Some s.
Proof. destruct o as [n|]; [eauto | done]. Qed.

Lemma getSession_putSession w o s s' :
  getSession w o = Some s → getSession (putSession o s' w) o = Some s'.
Proof.
  intros (n & -> & _)%getSession_Some. simpl. apply lookup_insert_eq.
Qed.

Lemma effectsSince_app w w' es :
  trace w' = trace w ++ es → effectsSince w w' = es.
Proof. unfold effectsSince. intros ->. by rewrite drop_app_length. Qed.

Lemma effectsSince_refl w : effectsSince w w = [].
Proof. apply effectsSince_app. by rewrite app_nil_r. Qed.

Lemma restartTimeout_found w o s kind ms :
  getSession w o = Some s →
  ∃ n, o = Some n
    ∧ trace (restartTimeout o kind ms w)
      = trace w ++ [TimeoutRestarted n kind ms]
    ∧ sockets (restartTimeout o kind ms w) = sockets w
    ∧ getSession (restartTimeout o kind ms w) o
      = Some (set_timeouts (<[kind := ms]> (timeouts s)) s).
Proof.
  intros Hs. destruct (getSession_Some _ _ _ Hs) as (n & -> & Hn).
  exists n. unfold restartTimeout. rewrite Hs. simpl.
  repeat split; try done. apply lookup_insert_eq.
Qed.
Lemma restartAll_trace o ms kinds : ∀ w s n,
  o = Some n → sessions w !! n = Some s →
  trace (restartAll o ms kinds w)
  = trace w ++ ((λ kind, TimeoutRestarted n kind ms) <$> kinds).
Proof.
  unfold restartAll.
  induction kinds as [| kind kinds IH]; intros w s n -> Hn;
    cbn [foldl fmap list_fmap].
  - by rewrite app_nil_r.
  - destruct (restartTimeout_found w (Some n) s kind ms)
      as (n' & [= <-] & Htr & _ & Hs); [done |].
    rewrite (IH _ _ n eq_refl Hs), Htr. by rewrite <- app_assoc.
Qed.

Lemma restartedKinds_restarts n ms kinds :
  restartedKinds ((λ kind, TimeoutRestarted n kind ms) <$> kinds) = kinds.
Proof.
  unfold restartedKinds. induction kinds; simpl; [done | by f_equal].
Qed.
End world_facts.

(** ** Duration correction *)

Section duration_correction.
Variables (w : World) (socket : string) (sessionName : option string).
Variables (voiceLine : string) (durationSec : Q) (session : Session).
Hypothesis Hfound : getSession w sessionName = Some session.

Let w' := handleUpdateVoiceDuration socket sessionName voiceLine
            durationSec w.
Let durationMs := Qmult durationSec (inject_Z 1000).

(** An accepted report runs [restartTimeout] over the announcement timer,
    when an announcement is current, and then over the blocks the [switch]
    runs through. *)
Lemma handleUpdateVoiceDuration_accepted :
  socket = creatorSocketID session →
  voiceLine = currentVoiceLine session →
  w' = restartAll sessionName durationMs
         (announcementKinds session ++ switchKinds (state session)) w.
Proof.
  intros Hcreator Hline. subst w' durationMs.
  unfold handleUpdateVoiceDuration, announcementKinds.
  rewrite Hfound. rewrite !decide_False by (intros ?; congruence).
  by destruct (currentAnnouncement session), (state session).
Qed.

Lemma handleUpdateVoiceDuration_effects :
  socket = creatorSocketID session →
  voiceLine = currentVoiceLine session →
  ∃ n, sessionName = Some n
    ∧ effectsSince w w'
      = (λ kind, TimeoutRestarted n kind durationMs)
        <$> (announcementKinds session ++ switchKinds (state session)).
Proof.
  intros Hcreator Hline.
  rewrite handleUpdateVoiceDuration_accepted by done.
  destruct (getSession_Some _ _ _ Hfound) as (n & -> & Hn).
  exists n. split; [done |].
  apply effectsSince_app. by apply restartAll_trace with session.
Qed.

(** Outside [ReadingCategoryNames] the restarts are the ones the spec
    names: the announcement timer exactly when an announcement is
    current, and the phase timeout the state maps to, if any. *)
Lemma handleUpdateVoiceDuration_mapping_elsewhere :
  socket = creatorSocketID session →
  voiceLine = currentVoiceLine session →
  state session ≠ SessionState.ReadingCategoryNames →
  restartedKinds (effectsSince w w')
  = announcementKinds session
    ++ option_list (specPhaseTimeout (state session)).
Proof.
  intros Hcreator Hline Hstate.
  destruct (handleUpdateVoiceDuration_effects Hcreator Hline)
    as (n & _ & ->).
  rewrite restartedKinds_restarts.
  by destruct (state session).
Qed.
End duration_correction.

(** C1 (the code departs from the claim).  An accepted duration report
    that arrives while the session is in [ReadingCategoryNames] restarts two
    phase timeouts, [ReadingCategoryName] and then [ReadingClueSelection],
    after the announcement timer if an announcement is current, all with
    the corrected duration: the [switch] falls through.  The spec's mapping
    gives [ReadingCategoryName] alone. *)
Theorem C1_category_names_report_restarts_two_phase_timeouts
    (w : World) (socket : string) (sessionName : option string)
    (voiceLine : string) (durationSec : Q) (session : Session) :
  getSession w sessionName = Some session →
  socket = creatorSocketID session →
  voiceLine = currentVoiceLine session →
  state session = SessionState.ReadingCategoryNames →
  let effects :=
    effectsSince w
      (handleUpdateVoiceDuration socket sessionName voiceLine
         durationSec w) in
  (∃ n, sessionName = Some n
     ∧ effects
       = (λ kind,
            TimeoutRestarted n kind (Qmult durationSec (inject_Z 1000)))
         <$> (announcementKinds session
              ++ [SessionTimeoutType.ReadingCategoryName;
                  SessionTimeoutType.ReadingClueSelection]))
  ∧ restartedKinds effects
    ≠ announcementKinds session
      ++ option_list (specPhaseTimeout (state session)).
Proof.
  intros Hfound Hcreator Hline Hstate effects.
  destruct (handleUpdateVoiceDuration_effects w socket sessionName
              voiceLine durationSec session Hfound Hcreator Hline)
    as (n & Hname & Heffects).
  fold effects in Heffects. rewrite Hstate in Heffects. simpl in Heffects.
  split; [by exists n |].
  rewrite Heffects, restartedKinds_restarts, Hstate. simpl.
  intros Habs%app_inv_head. discriminate.
Qed.

Lemma C1_category_names_report_witness :
  let w := demoWorld SessionState.ReadingCategoryNames None in
  let w' :=
    handleUpdateVoiceDuration "sock-host" (Some "quiz")
      "Welcome to the game" (3 # 2) w in
  effectsSince w w'
  = [TimeoutRestarted "quiz" SessionTimeoutType.ReadingCategoryName
       (3000 # 2);
     TimeoutRestarted "quiz" SessionTimeoutType.ReadingClueSelection
       (3000 # 2)]
  ∧ restartedKinds (effectsSince w w')
    ≠ option_list (specPhaseTimeout SessionState.ReadingCategoryNames).
Proof.
  intros w w'. split; [by vm_compute |].
  apply (C1_category_names_report_restarts_two_phase_timeouts
           w "sock-host" (Some "quiz") "Welcome to the game" (3 # 2)
           (quizSession SessionState.ReadingCategoryNames None));
    reflexivity.
Defined.

Example report_in_ReadingClue_during_announcement :
  let w := demoWorld SessionState.ReadingClue
             (Some SessionAnnouncement.FinalClue) in
  effectsSince w
    (handleUpdateVoiceDuration "sock-host" (Some "quiz")
       "Welcome to the game" (2 # 1) w)
  = [TimeoutRestarted "quiz" SessionTimeoutType.Announcement (2000 # 1);
     TimeoutRestarted "quiz" SessionTimeoutType.ReadingClue (2000 # 1)].
Proof. by vm_compute. Qed.

Example report_in_ClueTossup :
  let w := demoWorld SessionState.ClueTossup None in
  effectsSince w
    (handleUpdateVoiceDuration "sock-host" (Some "quiz")
       "Welcome to the game" (2 # 1) w)
  = [].
Proof. by vm_compute. Qed.

(** C2.  A duration report whose voice line differs from the session's
    current voice line is discarded: the handler returns the world as it
    was, so no timeout is restarted and the session is unchanged. *)
Theorem C2_stale_report_discarded
    (w : World) (socket : string) (sessionName : option string)
    (voiceLine : string) (durationSec : Q) (session : Session) :
  getSession w sessionName = Some session →
  voiceLine ≠ currentVoiceLine session →
  let w' :=
    handleUpdateVoiceDuration socket sessionName voiceLine durationSec w in
  w' = w
  ∧ restartedKinds (effectsSince w w') = []
  ∧ getSession w' sessionName = Some session.
Proof.
  intros Hfound Hstale w'.
  assert (w' = w) as ->.
  { subst w'. unfold handleUpdateVoiceDuration. rewrite Hfound.
    case_decide; [done |]. by rewrite decide_True. }
  by rewrite effectsSince_refl.
Qed.

Lemma C2_stale_report_witness :
  let w := demoWorld SessionState.ReadingClue
             (Some SessionAnnouncement.FinalClue) in
  handleUpdateVoiceDuration "sock-host" (Some "quiz") "An earlier line"
    (3 # 2) w = w.
Proof.
  intros w.
  apply (C2_stale_report_discarded w "sock-host" (Some "quiz")
           "An earlier line" (3 # 2)
           (quizSession SessionState.ReadingClue
              (Some SessionAnnouncement.FinalClue))).
  - reflexivity.
  - by vm_compute.
Defined.

(** C10.  A duration report is honoured only from the creator: when the
    acting socket is not the session's [creatorSocketID], the handler
    returns the world as it was, whatever the voice line reported and
    whether or not the socket is a host of the session. *)
Theorem C10_report_from_non_creator_ignored
    (w : World) (socket : string) (sessionName : option string)
    (voiceLine : string) (durationSec : Q) (session : Session) :
  getSession w sessionName = Some session →
  socket ≠ creatorSocketID session →
  let w' :=
    handleUpdateVoiceDuration socket sessionName voiceLine durationSec w in
  w' = w
  ∧ restartedKinds (effectsSince w w') = []
  ∧ getSession w' sessionName = Some session.
Proof.
  intros Hfound Hother w'.
  assert (w' = w) as ->.
  { subst w'. unfold handleUpdateVoiceDuration. rewrite Hfound.
    by rewrite decide_True. }
  by rewrite effectsSince_refl.
Qed.

Lemma C10_report_from_host_witness :
  let w := demoWorld SessionState.ReadingClue None in
  isHostOf w "sock-guest" "quiz"
  ∧ handleUpdateVoiceDuration "sock-guest" (Some "quiz")
      "Welcome to the game" (3 # 2) w = w.
Proof.
  intros w. split.
  - exists (quizSession SessionState.ReadingClue None).
    split; [reflexivity | by vm_compute].
  - apply (C10_report_from_non_creator_ignored w "sock-guest" (Some "quiz")
             "Welcome to the game" (3 # 2)
             (quizSession SessionState.ReadingClue None)).
    + reflexivity.
    + by vm_compute.
Defined.

(** ** Settings preset and custom games *)

(** Closes a goal [effectsSince w w' = es] once the trace of [w'] is the
    trace of [w] followed by the effects performed. *)
Ltac solve_effects :=
  apply effectsSince_app; simpl; rewrite <- ?app_assoc; reflexivity.

Lemma handleUpdateGameSettingsPreset_guarded w socket sessionName preset :
  ¬ mayConfigure w socket sessionName →
  handleUpdateGameSettingsPreset socket sessionName preset w = w.
Proof.
  intros Hno. unfold handleUpdateGameSettingsPreset.
  destruct (getSession w sessionName) as [session|] eqn:Hfound; [| done].
  repeat case_decide; try done.
  destruct Hno. exists session. split_and!; [done | | ].
  - by destruct (decide (state session = SessionState.Lobby)).
  - by destruct (decide (socket = creatorSocketID session)).
Qed.

Lemma handleGenerateCustomGame_guarded w socket sessionName settings gen :
  ¬ mayConfigure w socket sessionName →
  handleGenerateCustomGame socket sessionName settings gen w = w.
Proof.
  intros Hno. unfold handleGenerateCustomGame.
  destruct (getSession w sessionName) as [session|] eqn:Hfound; [| done].
  repeat case_decide; try done.
  destruct Hno. exists session. split_and!; [done | | ].
  - by destruct (decide (state session = SessionState.Lobby)).
  - by destruct (decide (socket = creatorSocketID session)).
Qed.

(** C4.  A preset update and a custom-game generation act only for the
    creator of a session in the lobby: for any other actor, any other
    state, or no session, both handlers return the world unchanged (so
    [state] and [triviaGameSettingsPreset] are unchanged).  An authorised
    preset update stores the preset and emits it to the hosts of the
    session except the actor. *)
Theorem C4_settings_need_lobby_and_creator
    (w : World) (socket : string) (sessionName : option string)
    (preset : TriviaGameSettingsPreset) (gameSettings : TriviaGameSettings)
    (gen : TriviaGameSettings → GenerationOutcome) :
  (¬ mayConfigure w socket sessionName →
     handleUpdateGameSettingsPreset socket sessionName preset w = w
     ∧ handleGenerateCustomGame socket sessionName gameSettings gen w = w)
  ∧ (∀ session,
       getSession w sessionName = Some session →
       state session = SessionState.Lobby →
       socket = creatorSocketID session →
       let w' := handleUpdateGameSettingsPreset socket sessionName preset w in
       let audience := ToHostsExcept (dom (hosts session)) socket in
       getSession w' sessionName
       = Some (set_triviaGameSettingsPreset preset session)
       ∧ effectsSince w w' = [Emit audience (UpdateGameSettingsPreset preset)]
       ∧ ∀ h, h ∈ recipients w' audience
              ↔ h ∈ dom (hosts session) ∧ h ≠ socket).
Proof.
  split.
  - intros Hno. split.
    + by apply handleUpdateGameSettingsPreset_guarded.
    + by apply handleGenerateCustomGame_guarded.
  - intros session Hfound Hlobby Hcreator w' audience.
    subst w'. unfold handleUpdateGameSettingsPreset.
    rewrite Hfound, decide_False, decide_False by (intros ?; congruence).
    split_and!.
    + by apply getSession_putSession with session.
    + destruct sessionName; solve_effects.
    + intros h. subst audience. simpl. set_solver.
Qed.

Lemma C4_settings_witness :
  let w := demoWorld SessionState.Lobby None in
  handleUpdateGameSettingsPreset "sock-guest" (Some "quiz") Custom w = w
  ∧ handleGenerateCustomGame "sock-guest" (Some "quiz") (Settings 1)
      (λ _, Generated (Round 7)) w = w
  ∧ effectsSince w
      (handleUpdateGameSettingsPreset "sock-host" (Some "quiz") Custom w)
    = [Emit (ToHostsExcept
               (dom (hosts (quizSession SessionState.Lobby None)))
               "sock-host")
         (UpdateGameSettingsPreset Custom)].
Proof.
  intros w.
  pose proof (C4_settings_need_lobby_and_creator w "sock-guest"
                (Some "quiz") Custom (Settings 1)
                (λ _, Generated (Round 7))) as [Hguard _].
  pose proof (C4_settings_need_lobby_and_creator w "sock-host"
                (Some "quiz") Custom (Settings 1)
                (λ _, Generated (Round 7))) as [_ Hdone].
  split_and!.
  - apply Hguard. intros (s & [= <-] & _ & Hc). by vm_compute in Hc.
  - apply Hguard. intros (s & [= <-] & _ & Hc). by vm_compute in Hc.
  - apply (Hdone (quizSession SessionState.Lobby None)); reflexivity.
Defined.

(** C5.  For the creator of a session in the lobby: when generation
    fails, the error goes to the acting connection as an error-flagged
    message, the callback is invoked with [false], and the registry is as
    before; when it succeeds, [Custom] is emitted to all hosts, the
    generated round is emitted, and the callback is invoked with [true]. *)
Theorem C5_generation_outcomes
    (w : World) (socket : string) (sessionName : option string)
    (gameSettings : TriviaGameSettings)
    (gen : TriviaGameSettings → GenerationOutcome) (session : Session) :
  getSession w sessionName = Some session →
  state session = SessionState.Lobby →
  socket = creatorSocketID session →
  let w' := handleGenerateCustomGame socket sessionName gameSettings gen w in
  match gen gameSettings with
  | GenerationFailed error =>
      effectsSince w w'
      = [Emit (ToSocket socket) (Message error true); Callback socket false]
      ∧ sessions w' = sessions w
      ∧ state <$> getSession w' sessionName = Some (state session)
  | Generated round =>
      effectsSince w w'
      = [Emit (ToHosts (dom (hosts session)))
           (UpdateGameSettingsPreset Custom);
         Emit (ToSocket socket)
           (Message "Custom settings were saved successfully" false);
         Emit (ToSession sessionName) (TriviaRoundUpdate (Some round));
         Callback socket true]
      ∧ triviaGameSettingsPreset <$> getSession w' sessionName = Some Custom
      ∧ triviaRound <$> getSession w' sessionName = Some (Some round)
  end.
Proof.
  intros Hfound Hlobby Hcreator w'. subst w'.
  unfold handleGenerateCustomGame.
  rewrite Hfound, decide_False, decide_False by (intros ?; congruence).
  destruct (getSession_Some _ _ _ Hfound) as (n & -> & Hn).
  destruct (gen gameSettings) as [round | error]; simpl.
  - unfold emitTriviaRoundUpdate. simpl. rewrite lookup_insert_eq. simpl.
    split_and!; [solve_effects | by rewrite lookup_insert_eq ..].
  - rewrite Hn. split_and!; [solve_effects | done | done].
Qed.

Lemma C5_generation_witness :
  let w := demoWorld SessionState.Lobby None in
  effectsSince w
    (handleGenerateCustomGame "sock-host" (Some "quiz") (Settings 1)
       (λ _, GenerationFailed "no categories left") w)
  = [Emit (ToSocket "sock-host") (Message "no categories left" true);
     Callback "sock-host" false]
  ∧ triviaRound
      <$> getSession
            (handleGenerateCustomGame "sock-host" (Some "quiz") (Settings 1)
               (λ _, Generated (Round 7)) w) (Some "quiz")
    = Some (Some (Round 7)).
Proof.
  intros w. split.
  - apply (C5_generation_outcomes w "sock-host" (Some "quiz") (Settings 1)
             (λ _, GenerationFailed "no categories left")
             (quizSession SessionState.Lobby None)); reflexivity.
  - apply (C5_generation_outcomes w "sock-host" (Some "quiz") (Settings 1)
             (λ _, Generated (Round 7))
             (quizSession SessionState.Lobby None)); reflexivity.
Defined.

(** ** Play again *)

(** C9.  [handlePlayAgain] returns the world unchanged unless the session
    exists and is in [GameOver]; from [GameOver] it resets the session,
    which is then stored in state [Lobby] with its name, creator and hosts
    as before, and then emits, in this order, the state update (carrying
    [Lobby], the state after the reset), the round update and the
    leaderboard update. *)
Theorem C9_play_again_only_from_game_over
    (w : World) (socket : string) (sessionName : option string) :
  let w' := handlePlayAgain socket sessionName w in
  match getSession w sessionName with
  | None => w' = w
  | Some session =>
      if decide (state session = SessionState.GameOver) then
        getSession w' sessionName = Some (resetGame session)
        ∧ state <$> getSession w' sessionName = Some SessionState.Lobby
        ∧ state (resetGame session) ≠ state session
        ∧ name (resetGame session) = name session
        ∧ creatorSocketID (resetGame session) = creatorSocketID session
        ∧ hosts (resetGame session) = hosts session
        ∧ effectsSince w w'
          = [Emit (ToSession sessionName) (StateUpdate SessionState.Lobby);
             Emit (ToSession sessionName)
               (TriviaRoundUpdate (triviaRound (resetGame session)));
             Emit (ToSocket socket) LeaderboardUpdate]
      else w' = w
  end.
Proof.
  intros w'. subst w'. unfold handlePlayAgain.
  destruct (getSession w sessionName) as [session|] eqn:Hfound; [| done].
  destruct (decide (state session = SessionState.GameOver)) as [Hover|Hnot].
  - rewrite decide_False by (intros ?; congruence).
    destruct (getSession_Some _ _ _ Hfound) as (n & -> & Hn).
    unfold emitLeaderboardUpdate, emitTriviaRoundUpdate, emitStateUpdate.
    simpl. repeat (rewrite lookup_insert_eq; simpl).
    split_and!; try done; [by rewrite Hover | solve_effects].
  - by rewrite decide_True.
Qed.

Example playAgain_from_game_over :
  let w := demoWorld SessionState.GameOver None in
  effectsSince w (handlePlayAgain "sock-host" (Some "quiz") w)
  = [Emit (ToSession (Some "quiz")) (StateUpdate SessionState.Lobby);
     Emit (ToSession (Some "quiz")) (TriviaRoundUpdate None);
     Emit (ToSocket "sock-host") LeaderboardUpdate].
Proof. by vm_compute. Qed.

Example playAgain_stores_the_lobby :
  let w := demoWorld SessionState.GameOver None in
  getSession (handlePlayAgain "sock-host" (Some "quiz") w) (Some "quiz")
  = Some (quizSession SessionState.Lobby None).
Proof. by vm_compute. Qed.

Example playAgain_outside_game_over :
  let w := demoWorld SessionState.ClueResponse None in
  handlePlayAgain "sock-host" (Some "quiz") w = w.
Proof. by vm_compute. Qed.

(** ** Spectating and leaving *)

(** C8.  Spectating a name that is not in the registry, or a session whose
    [hosts] already contains the connection, sends one error-flagged
    message to the attempting connection and changes neither the registry
    (so no session's [hosts]) nor any socket's rooms or session name. *)
Theorem C8_spectate_rejections
    (w : World) (socket sessionName clientID : string) :
  (getSession w (Some sessionName) = None
   ∨ ∃ session, getSession w (Some sessionName) = Some session
       ∧ socket ∈ dom (hosts session)) →
  let w' := handleAttemptSpectate socket sessionName clientID w in
  sessions w' = sessions w
  ∧ sockets w' = sockets w
  ∧ ∃ text, effectsSince w w' = [Emit (ToSocket socket) (Message text true)].
Proof.
  intros Hreject w'. subst w'. unfold handleAttemptSpectate.
  destruct Hreject as [-> | (session & -> & Hhost)].
  - split_and!; [done | done |]. eexists. solve_effects.
  - rewrite decide_True by done.
    split_and!; [done | done |]. eexists. solve_effects.
Qed.

Lemma C8_spectate_rejections_witness :
  let w := demoWorld SessionState.Lobby None in
  effectsSince w (handleAttemptSpectate "sock-other" "nope" "client-c" w)
  = [Emit (ToSocket "sock-other")
       (Message "Couldn't find session a session named: nope" true)]
  ∧ sessions (handleAttemptSpectate "sock-guest" "quiz" "client-b" w)
    = sessions w.
Proof.
  intros w. split.
  - by vm_compute.
  - apply (C8_spectate_rejections w "sock-guest" "quiz" "client-b").
    right. exists (quizSession SessionState.Lobby None).
    split; [reflexivity | by vm_compute].
Defined.

(** C6.  When the creator leaves, the session is deleted from the registry
    and a [CancelGame] notice is emitted to the session's room except the
    sender, so every other connection in that room receives it; when a
    non-creator leaves, the connection is removed from [hosts] (it is no
    longer a key of [hosts], every other host keeps its entry) and nothing
    else changes: the session stays in the registry, in the same state,
    with the same name and creator, and nothing is emitted. *)
Theorem C6_leave_session
    (w : World) (socket : string) (sessionName : option string)
    (session : Session) :
  getSession w sessionName = Some session →
  let w' := handleLeaveSession socket sessionName w in
  if decide (socket = creatorSocketID session) then
    getSession w' sessionName = None
    ∧ w' = emit (RoomExceptSender sessionName socket) CancelGame
             (deleteSession sessionName w)
    ∧ effectsSince w w' = [Emit (RoomExceptSender sessionName socket) CancelGame]
    ∧ ∀ c, c ∈ inRoom w sessionName → c ≠ socket →
           c ∈ recipients w' (RoomExceptSender sessionName socket)
  else
    getSession w' sessionName = Some (disconnectHost socket session)
    ∧ state (disconnectHost socket session) = state session
    ∧ w' = putSession sessionName (disconnectHost socket session) w
    ∧ effectsSince w w' = []
    ∧ hosts (disconnectHost socket session) = delete socket (hosts session)
    ∧ (socket ∉ dom (hosts (disconnectHost socket session)))
    ∧ (∀ other, other ≠ socket →
         (hosts (disconnectHost socket session) !! other)
         = (hosts session !! other))
    ∧ name (disconnectHost socket session) = name session
    ∧ creatorSocketID (disconnectHost socket session)
      = creatorSocketID session.
Proof.
  intros Hfound w'. subst w'. unfold handleLeaveSession. rewrite Hfound.
  destruct (getSession_Some _ _ _ Hfound) as (n & -> & Hn).
  case_decide.
  - split_and!.
    + simpl. apply lookup_delete_eq.
    + simpl. unfold emit, perform, set_sessions. simpl.
      by rewrite delete_insert_eq.
    + solve_effects.
    + intros c Hroom Hother. simpl in *. set_solver.
  - split_and!;
      [by apply getSession_putSession with session | done | done | | done
      | | | done | done].
    + apply effectsSince_app. simpl. by rewrite app_nil_r.
    + unfold disconnectHost. simpl.
      apply not_elem_of_dom, lookup_delete_eq.
    + intros other Hother. unfold disconnectHost. simpl.
      by apply lookup_delete_ne.
Qed.

Lemma C6_leave_session_witness :
  let w := demoWorld SessionState.ClueSelection None in
  getSession (handleLeaveSession "sock-host" (Some "quiz") w) (Some "quiz")
  = None
  ∧ "sock-guest"
    ∈ recipients (handleLeaveSession "sock-host" (Some "quiz") w)
        (RoomExceptSender (Some "quiz") "sock-host")
  ∧ state
    <$> getSession (handleLeaveSession "sock-guest" (Some "quiz") w)
          (Some "quiz")
    = Some SessionState.ClueSelection
  ∧ ¬ isHostOf (handleLeaveSession "sock-guest" (Some "quiz") w)
        "sock-guest" "quiz"
  ∧ isHostOf (handleLeaveSession "sock-guest" (Some "quiz") w)
      "sock-host" "quiz".
Proof.
  intros w.
  pose proof (C6_leave_session w "sock-host" (Some "quiz")
                (quizSession SessionState.ClueSelection None) eq_refl)
    as Hcreator.
  pose proof (C6_leave_session w "sock-guest" (Some "quiz")
                (quizSession SessionState.ClueSelection None) eq_refl)
    as Hguest.
  rewrite decide_True in Hcreator by reflexivity.
  rewrite decide_False in Hguest by by vm_compute.
  destruct Hcreator as (Hgone & _ & _ & Hnotice).
  destruct Hguest as (Hkept & _ & _ & _ & _ & Hout & Hothers & _).
  split_and!.
  - exact Hgone.
  - apply Hnotice; by vm_compute.
  - by rewrite Hkept.
  - intros (s & Hs & Hin).
    change (sessions (handleLeaveSession "sock-guest" (Some "quiz") w)
              !! "quiz")
      with (getSession (handleLeaveSession "sock-guest" (Some "quiz") w)
              (Some "quiz")) in Hs.
    rewrite Hkept in Hs. injection Hs as <-. by apply Hout.
  - exists (disconnectHost "sock-guest"
              (quizSession SessionState.ClueSelection None)).
    split; [exact Hkept |].
    apply elem_of_dom. rewrite Hothers; [| by vm_compute].
    by exists "client-a".
Defined.

Lemma disconnectHost_connectHost socket clientID session :
  socket ∉ dom (hosts session) →
  disconnectHost socket (connectHost socket clientID session) = session.
Proof.
  intros Hnew%not_elem_of_dom. destruct session. unfold disconnectHost,
    connectHost, set_hosts. simpl in *. f_equal.
  by rewrite delete_insert_id.
Qed.

(** C3 (the code departs from the claim).  [handleAttemptSpectate] joins
    the new session first and calls [handleLeaveSession] afterwards, with
    the socket's session name as it is by then.  For a connection attached
    to a session [old] that spectates another session [new]: after the
    join it is a host of both sessions, and the leave is applied to [new],
    the session just joined.  The registry ends as it began: the
    connection is still a host of [old] and is not a host of [new]. *)
Theorem C3_spectate_joins_then_leaves_the_new_session
    (w : World) (socket old new clientID : string) (sOld sNew : Session) :
  sessions w !! old = Some sOld →
  socket ∈ dom (hosts sOld) →
  sessions w !! new = Some sNew →
  socket ∉ dom (hosts sNew) →
  socket ≠ creatorSocketID sNew →
  let joined := spectateJoin socket new clientID sNew w in
  let w' := handleAttemptSpectate socket new clientID w in
  (isHostOf joined socket old ∧ isHostOf joined socket new)
  ∧ w' = handleLeaveSession socket (Some new) joined
  ∧ sessions w' = sessions w
  ∧ isHostOf w' socket old
  ∧ ¬ isHostOf w' socket new.
Proof.
  intros Hold Hhost Hnew Hfresh Hcreator joined w'.
  assert (old ≠ new) as Hne by (intros ->; congruence).
  assert (w' = handleLeaveSession socket (Some new) joined) as Hw'.
  { subst w' joined. unfold handleAttemptSpectate. simpl. rewrite Hnew.
    rewrite decide_False by done. f_equal.
    unfold spectateJoin, joinSessionAsHost, socketData, set_sockets. simpl.
    by repeat (rewrite lookup_insert_eq; simpl). }
  assert (sessions w' = sessions w) as Hsame.
  { rewrite Hw'. subst joined.
    unfold handleLeaveSession, spectateJoin, joinSessionAsHost. simpl.
    repeat (rewrite lookup_insert_eq; simpl).
    rewrite decide_False by done. simpl.
    rewrite insert_insert_eq, disconnectHost_connectHost by done.
    by apply insert_id. }
  split_and!; [| | done | done | |].
  - exists sOld. split; [| done]. subst joined.
    unfold spectateJoin, joinSessionAsHost. simpl.
    repeat (rewrite lookup_insert_eq; simpl). by rewrite lookup_insert_ne.
  - exists (connectHost socket clientID sNew). subst joined.
    unfold spectateJoin, joinSessionAsHost. simpl.
    repeat (rewrite lookup_insert_eq; simpl). split; [done |].
    unfold connectHost. simpl. set_solver.
  - exists sOld. by rewrite Hsame.
  - intros (s & Hs & Hin). rewrite Hsame in Hs. congruence.
Qed.

Lemma C3_spectate_witness :
  let w := demoWorld SessionState.Lobby None in
  let w' := handleAttemptSpectate "sock-guest" "blue" "client-b" w in
  isHostOf w' "sock-guest" "quiz"
  ∧ ¬ isHostOf w' "sock-guest" "blue"
  ∧ Socket.sessionName (socketData w' "sock-guest") = Some "blue"
  ∧ effectsSince w w'
    = [Emit (ToSocket "sock-guest")
         (Message "Joined session: blue as spectator" false)].
Proof.
  intros w w'.
  destruct (C3_spectate_joins_then_leaves_the_new_session w
              "sock-guest" "quiz" "blue" "client-b"
              (quizSession SessionState.Lobby None) blueSession)
    as (_ & _ & _ & Hstill & Hnot);
    [reflexivity | by vm_compute | reflexivity | by vm_compute
    | by vm_compute |].
  split_and!; [exact Hstill | exact Hnot | by vm_compute | by vm_compute].
Defined.

(** ** The registry and session names *)

Create HintDb wf discriminated.

Section registry_wf.
Implicit Types (w : World) (o : option string) (s : Session).

Lemma registryWf_sessions w w' :
  sessions w' = sessions w → registryWf w → registryWf w'.
Proof. unfold registryWf. by intros ->. Qed.

Lemma registryWf_perform e w : registryWf w → registryWf (perform e w).
Proof. by apply registryWf_sessions. Qed.

Lemma registryWf_emit to event w : registryWf w → registryWf (emit to event w).
Proof. by apply registryWf_sessions. Qed.

Lemma registryWf_putSession w o s s' :
  getSession w o = Some s → name s' = name s →
  registryWf w → registryWf (putSession o s' w).
Proof.
  intros (n & -> & Hn)%getSession_Some Hname Hwf k s0. simpl.
  destruct (decide (n = k)) as [<- | Hne].
  - rewrite lookup_insert_eq. intros [= <-]. rewrite Hname. eauto.
  - rewrite lookup_insert_ne by done. apply Hwf.
Qed.

Lemma registryWf_deleteSession w o :
  registryWf w → registryWf (deleteSession o w).
Proof.
  intros Hwf. destruct o as [n|]; [| done]. intros k s0. simpl.
  intros [_ Hk]%lookup_delete_Some. eauto.
Qed.

Lemma registryWf_createSession w w' n socket clientID :
  createSession n socket clientID w = Some w' →
  registryWf w → registryWf w'.
Proof.
  unfold createSession. destruct (sessions w !! n) eqn:Hn; [done |].
  intros [= <-] Hwf k s0. simpl.
  destruct (decide (n = k)) as [<- | Hne].
  - rewrite lookup_insert_eq. by intros [= <-].
  - rewrite lookup_insert_ne by done. apply Hwf.
Qed.

Lemma registryWf_joinSessionAsHost w socket o :
  registryWf w → registryWf (joinSessionAsHost socket o w).
Proof.
  apply registryWf_sessions. unfold joinSessionAsHost.
  destruct o; [| done]. by destruct (getSession w _).
Qed.

Lemma registryWf_restartTimeout w o kind ms :
  registryWf w → registryWf (restartTimeout o kind ms w).
Proof.
  intros Hwf. unfold restartTimeout.
  destruct o as [n|]; [| done].
  destruct (getSession w (Some n)) as [s|] eqn:Hs; [| done].
  apply registryWf_perform. by apply registryWf_putSession with s.
Qed.

Lemma registryWf_emitStateUpdate w o :
  registryWf w → registryWf (emitStateUpdate o w).
Proof.
  intros Hwf. unfold emitStateUpdate.
  destruct (getSession w o); [by apply registryWf_emit | done].
Qed.

Lemma registryWf_emitTriviaRoundUpdate w o :
  registryWf w → registryWf (emitTriviaRoundUpdate o w).
Proof.
  intros Hwf. unfold emitTriviaRoundUpdate.
  destruct (getSession w o); [by apply registryWf_emit | done].
Qed.

Lemma generateTriviaGame_name outcome s s' :
  generateTriviaGame outcome s = inl s' → name s' = name s.
Proof. destruct outcome; [by intros [= <-] | done]. Qed.
End registry_wf.

#[export] Hint Resolve registryWf_perform registryWf_emit
  registryWf_deleteSession registryWf_joinSessionAsHost
  registryWf_restartTimeout registryWf_emitStateUpdate
  registryWf_emitTriviaRoundUpdate : wf.

(** Each handler keeps every session under the name it carries. *)
Section handlers_keep_wf.
Variables (w : World) (socket : string) (sessionName : option string).
Hypothesis Hwf : registryWf w.

Lemma registryWf_handleUpdateGameSettingsPreset preset :
  registryWf (handleUpdateGameSettingsPreset socket sessionName preset w).
Proof.
  unfold handleUpdateGameSettingsPreset.
  destruct (getSession w sessionName) as [s|] eqn:Hs; [| done].
  repeat case_decide; try done.
  apply registryWf_emit. by apply registryWf_putSession with s.
Qed.

Lemma registryWf_handleUpdateVoiceType voice :
  registryWf (handleUpdateVoiceType socket sessionName voice w).
Proof.
  unfold handleUpdateVoiceType.
  destruct (getSession w sessionName) as [s|] eqn:Hs; [| done].
  apply registryWf_emit. by apply registryWf_putSession with s.
Qed.

Lemma registryWf_handleUpdateVoiceDuration voiceLine durationSec :
  registryWf
    (handleUpdateVoiceDuration socket sessionName voiceLine durationSec w).
Proof.
  unfold handleUpdateVoiceDuration.
  destruct (getSession w sessionName) as [s|] eqn:Hs; [| done].
  repeat case_decide; try done.
  destruct (currentAnnouncement s), (state s); auto 6 with wf.
Qed.

Lemma registryWf_handleLeaveSession :
  registryWf (handleLeaveSession socket sessionName w).
Proof.
  unfold handleLeaveSession.
  destruct (getSession w sessionName) as [s|] eqn:Hs; [| done].
  assert (registryWf (putSession sessionName (disconnectHost socket s) w))
    by by apply registryWf_putSession with s.
  case_decide; auto with wf.
Qed.

Lemma registryWf_handleGenerateCustomGame settings gen :
  registryWf
    (handleGenerateCustomGame socket sessionName settings gen w).
Proof.
  unfold handleGenerateCustomGame.
  destruct (getSession w sessionName) as [s|] eqn:Hs; [| done].
  repeat case_decide; try done.
  destruct (generateTriviaGame _ s) as [s'|e] eqn:Hgen.
  - apply generateTriviaGame_name in Hgen.
    assert (registryWf (putSession sessionName s' w))
      by by apply registryWf_putSession with s.
    auto 6 with wf.
  - unfold emitServerError. auto with wf.
Qed.

Lemma registryWf_handlePlayAgain :
  registryWf (handlePlayAgain socket sessionName w).
Proof.
  unfold handlePlayAgain.
  destruct (getSession w sessionName) as [s|] eqn:Hs; [| done].
  case_decide; [done |].
  assert (registryWf (putSession sessionName (resetGame s) w))
    by by apply registryWf_putSession with s.
  unfold emitLeaderboardUpdate. auto 6 with wf.
Qed.
End handlers_keep_wf.

Lemma registryWf_handleAttemptSpectate w socket target clientID :
  registryWf w → registryWf (handleAttemptSpectate socket target clientID w).
Proof.
  intros Hwf. unfold handleAttemptSpectate.
  destruct (getSession w (Some target)) as [s|] eqn:Hs; [| auto with wf].
  case_decide; [auto with wf |].
  apply registryWf_handleLeaveSession. unfold spectateJoin.
  apply registryWf_emit, registryWf_joinSessionAsHost.
  by apply registryWf_putSession with s.
Qed.

Lemma registryWf_handleConnect w w' socket clientID draws :
  handleConnect socket clientID draws w = Some w' →
  registryWf w → registryWf w'.
Proof.
  unfold handleConnect. intros Hrun Hwf.
  apply bind_Some in Hrun as (n & _ & Hrun).
  apply bind_Some in Hrun as (w1 & Hcreate & [= <-]).
  apply (registryWf_sessions w1);
    [| by apply (registryWf_createSession w w1 n socket clientID)].
  by destruct (sessions w1 !! n).
Qed.

Lemma registryWf_handleHostEvent w w' socket event env :
  handleHostEvent socket event env w = Some w' →
  registryWf w → registryWf w'.
Proof.
  intros Hrun Hwf. destruct event; simpl in Hrun;
    try (injection Hrun as <-).
  - by eapply registryWf_handleConnect.
  - by apply registryWf_handleUpdateGameSettingsPreset.
  - by apply registryWf_handleUpdateVoiceType.
  - by apply registryWf_handleUpdateVoiceDuration.
  - by apply registryWf_handleAttemptSpectate.
  - by apply registryWf_handleLeaveSession.
  - by apply registryWf_handleGenerateCustomGame.
  - by apply registryWf_handlePlayAgain.
Qed.

Lemma registryWf_handleHostEvents inputs w w' :
  handleHostEvents inputs w = Some w' → registryWf w → registryWf w'.
Proof.
  revert w. induction inputs as [| [[socket event] env] rest IH];
    intros w Hrun Hwf; simpl in Hrun.
  - by injection Hrun as <-.
  - destruct (handleHostEvent socket event env w) as [w1|] eqn:Hstep;
      [| done].
    simpl in Hrun. eauto using registryWf_handleHostEvent.
Qed.

(** Under [registryWf] the names of the live sessions are the keys of the
    registry, which are pairwise distinct. *)
Lemma registryWf_liveNames w :
  registryWf w → liveNames w = (map_to_list (sessions w)).*1.
Proof.
  intros Hwf. unfold liveNames. rewrite <- list_fmap_compose.
  apply list_fmap_ext. intros i [n s] Hin%list_elem_of_lookup_2.
  apply elem_of_map_to_list in Hin. simpl. eauto.
Qed.

Lemma registryWf_NoDup w : registryWf w → NoDup (liveNames w).
Proof.
  intros Hwf. rewrite registryWf_liveNames by done.
  apply NoDup_fst_map_to_list.
Qed.

(** The loop of [handleConnect] returns the first draw that names no
    session, having passed over draws that are all taken; it has no result
    only when every draw is taken. *)
Lemma generateSessionName_spec w draws :
  match generateSessionName w draws with
  | Some n =>
      ∃ taken rest, draws = taken ++ n :: rest
        ∧ Forall (λ c, is_Some (sessions w !! c)) taken
        ∧ sessions w !! n = None
  | None => Forall (λ c, is_Some (sessions w !! c)) draws
  end.
Proof.
  induction draws as [| c draws IH]; simpl; [done |].
  destruct (sessions w !! c) as [s|] eqn:Hc.
  - destruct (generateSessionName w draws) as [n|].
    + destruct IH as (taken & rest & -> & Htaken & Hn).
      exists (c :: taken), rest. split_and!; [done | | done].
      constructor; eauto.
    + constructor; eauto.
  - exists [], draws. by split_and!.
Qed.

(** C7.  Along every sequence of host events, session creations among
    them, the live sessions carry pairwise distinct names.  A creation
    draws names until one is absent from the registry and stores the new
    session under it, next to the sessions already there; it has no result
    only when every name drawn is taken. *)
Theorem C7_live_session_names_unique (w : World) :
  registryWf w →
  (∀ inputs w', handleHostEvents inputs w = Some w' → NoDup (liveNames w'))
  ∧ (∀ socket clientID draws,
       match handleConnect socket clientID draws w with
       | Some w' =>
           ∃ taken n rest, draws = taken ++ n :: rest
             ∧ Forall (λ c, is_Some (sessions w !! c)) taken
             ∧ sessions w !! n = None
             ∧ sessions w' = <[n := newSession n socket clientID]> (sessions w)
             ∧ NoDup (liveNames w')
       | None => Forall (λ c, is_Some (sessions w !! c)) draws
       end).
Proof.
  intros Hwf. split.
  - intros inputs w' Hrun.
    eapply registryWf_NoDup, registryWf_handleHostEvents; eauto.
  - intros socket clientID draws.
    destruct (handleConnect socket clientID draws w) as [w'|] eqn:Hrun.
    + pose proof (registryWf_handleConnect _ _ _ _ _ Hrun Hwf) as Hwf'.
      unfold handleConnect in Hrun.
      pose proof (generateSessionName_spec w draws) as Hloop.
      destruct (generateSessionName w draws) as [n|]; [| done].
      destruct Hloop as (taken & rest & -> & Htaken & Hn).
      exists taken, n, rest. split_and!; try done.
      * simpl in Hrun. unfold createSession in Hrun. rewrite Hn in Hrun.
        simpl in Hrun. rewrite lookup_insert_eq in Hrun.
        by injection Hrun as <-.
      * by apply registryWf_NoDup.
    + unfold handleConnect in Hrun.
      pose proof (generateSessionName_spec w draws) as Hloop.
      destruct (generateSessionName w draws) as [n|]; [| done].
      destruct Hloop as (taken & rest & -> & Htaken & Hn).
      simpl in Hrun. unfold createSession in Hrun. by rewrite Hn in Hrun.
Qed.

Lemma C7_live_session_names_witness :
  ∃ w',
    handleHostEvents demoConnects (initialWorld false) = Some w'
    ∧ dom (sessions w') = {["quiz"; "blue"]}
    ∧ NoDup (liveNames w').
Proof.
  destruct (handleHostEvents demoConnects (initialWorld false))
    as [w'|] eqn:Hrun; [| by vm_compute in Hrun].
  exists w'. split_and!; [done | |].
  - pose proof Hrun as Hnf. vm_compute in Hnf. by injection Hnf as <-.
  - apply (C7_live_session_names_unique (initialWorld false))
      with demoConnects; [compute_done | exact Hrun].
Defined.

(** * Further properties of the handlers *)

(** ** Sessions other than the one addressed *)

Section untouched.
Implicit Types (w : World) (o : option string) (s : Session).

(** [w'] has the sessions of [w] under every name other than [o]. *)
Let elsewhere o w w' : Prop :=
  ∀ m, Some m ≠ o → sessions w' !! m = sessions w !! m.

Lemma elsewhere_putSession o s w : elsewhere o w (putSession o s w).
Proof.
  intros m Hm. destruct o as [n|]; [| done]. simpl.
  apply lookup_insert_ne. congruence.
Qed.

Lemma elsewhere_deleteSession o w : elsewhere o w (deleteSession o w).
Proof.
  intros m Hm. destruct o as [n|]; [| done]. simpl.
  apply lookup_delete_ne. congruence.
Qed.

Lemma elsewhere_restartTimeout o kind ms w :
  elsewhere o w (restartTimeout o kind ms w).
Proof.
  intros m Hm. unfold restartTimeout. destruct o as [n|]; [| done].
  destruct (getSession w (Some n)); [| done]. simpl.
  apply lookup_insert_ne. congruence.
Qed.

Lemma elsewhere_restartAll o ms kinds w :
  elsewhere o w (restartAll o ms kinds w).
Proof.
  unfold restartAll. revert w.
  induction kinds as [| kind kinds IH]; intros w m Hm; [done |].
  cbn [foldl]. rewrite IH by done. by apply elsewhere_restartTimeout.
Qed.

Lemma sessions_joinSessionAsHost socket o w :
  sessions (joinSessionAsHost socket o w) = sessions w.
Proof.
  unfold joinSessionAsHost. destruct o; [| done].
  by destruct (getSession w _).
Qed.

Lemma sessions_emitStateUpdate o w :
  sessions (emitStateUpdate o w) = sessions w.
Proof. unfold emitStateUpdate. by destruct (getSession w o). Qed.

Lemma sessions_emitTriviaRoundUpdate o w :
  sessions (emitTriviaRoundUpdate o w) = sessions w.
Proof. unfold emitTriviaRoundUpdate. by destruct (getSession w o). Qed.

Lemma elsewhere_handleLeaveSession socket o w :
  elsewhere o w (handleLeaveSession socket o w).
Proof.
  intros m Hm. unfold handleLeaveSession.
  destruct (getSession w o); [| done]. case_decide; simpl.
  - rewrite elsewhere_deleteSession by done. by apply elsewhere_putSession.
  - by apply elsewhere_putSession.
Qed.

Lemma elsewhere_handleUpdateVoiceDuration socket o line sec w :
  elsewhere o w (handleUpdateVoiceDuration socket o line sec w).
Proof.
  intros m Hm.
  destruct (getSession w o) as [s|] eqn:Hs;
    [| by unfold handleUpdateVoiceDuration; rewrite Hs].
  destruct (decide (socket = creatorSocketID s)) as [Hc|Hc];
    [| by unfold handleUpdateVoiceDuration; rewrite Hs, decide_True].
  destruct (decide (line = currentVoiceLine s)) as [Hl|Hl].
  - rewrite (handleUpdateVoiceDuration_accepted _ _ _ _ _ _ Hs Hc Hl).
    by apply elsewhere_restartAll.
  - unfold handleUpdateVoiceDuration. rewrite Hs.
    rewrite decide_False by (intros ?; congruence).
    by rewrite decide_True.
Qed.

Lemma elsewhere_handleGenerateCustomGame socket o settings gen w :
  elsewhere o w (handleGenerateCustomGame socket o settings gen w).
Proof.
  intros m Hm. unfold handleGenerateCustomGame.
  destruct (getSession w o); [| done]. repeat case_decide; try done.
  destruct (generateTriviaGame _ _); [| done]. simpl.
  rewrite sessions_emitTriviaRoundUpdate. simpl.
  by apply elsewhere_putSession.
Qed.

Lemma elsewhere_handlePlayAgain socket o w :
  elsewhere o w (handlePlayAgain socket o w).
Proof.
  intros m Hm. unfold handlePlayAgain.
  destruct (getSession w o); [| done]. case_decide; [done |]. simpl.
  rewrite sessions_emitTriviaRoundUpdate, sessions_emitStateUpdate.
  by apply elsewhere_putSession.
Qed.

Lemma sessions_spectateJoin socket target clientID s w :
  sessions (spectateJoin socket target clientID s w)
  = <[target := connectHost socket clientID s]> (sessions w).
Proof.
  unfold spectateJoin, emit, perform. cbn [sessions].
  by rewrite sessions_joinSessionAsHost.
Qed.

Lemma elsewhere_handleConnect socket clientID draws w w' :
  handleConnect socket clientID draws w = Some w' →
  elsewhere (generateSessionName w draws) w w'.
Proof.
  unfold handleConnect. intros Hrun m Hm.
  destruct (generateSessionName w draws) as [n|]; [| done].
  apply bind_Some in Hrun as (n' & [= <-] & Hrun).
  apply bind_Some in Hrun as (w1 & Hcreate & Hjoin).
  assert (sessions w' = sessions w1) as ->.
  { injection Hjoin as <-.
    exact (sessions_joinSessionAsHost socket (Some n) w1). }
  unfold createSession in Hcreate.
  destruct (sessions w !! n); [done |]. injection Hcreate as <-. simpl.
  apply lookup_insert_ne. congruence.
Qed.

(** X3.  A host event other than [AttemptSpectate] touches at most the
    session it is aimed at (the one [Connect] creates, otherwise the
    session of the socket): every session stored under another name is
    exactly as before. *)
Theorem X3_events_touch_one_session
    (w w' : World) (socket : string) (event : HostSocket.t)
    (env : Collaborators) :
  isSpectate event = false →
  handleHostEvent socket event env w = Some w' →
  ∀ m, Some m ≠ eventSession socket event env w →
       sessions w' !! m = sessions w !! m.
Proof.
  intros Hevent Hrun m Hm.
  destruct event; try discriminate Hevent; simpl in Hrun, Hm;
    try (injection Hrun as <-).
  - by apply (elsewhere_handleConnect _ _ _ _ _ Hrun).
  - unfold handleUpdateGameSettingsPreset.
    destruct (getSession w _); [| done]. repeat case_decide; try done.
    simpl. by apply elsewhere_putSession.
  - unfold handleUpdateVoiceType. destruct (getSession w _); [| done].
    simpl. by apply elsewhere_putSession.
  - by apply elsewhere_handleUpdateVoiceDuration.
  - by apply elsewhere_handleLeaveSession.
  - by apply elsewhere_handleGenerateCustomGame.
  - by apply elsewhere_handlePlayAgain.
Qed.
End untouched.

Lemma X3_events_touch_one_session_witness :
  let w := demoWorld SessionState.GameOver None in
  sessions (handlePlayAgain "sock-host" (Some "quiz") w) !! "blue"
  = sessions w !! "blue".
Proof.
  intros w.
  apply (X3_events_touch_one_session w _ "sock-host" HostSocket.PlayAgain
           (mkCollaborators [] (λ _, Generated (Round 0)))).
  - reflexivity.
  - reflexivity.
  - by vm_compute.
Defined.

(** ** What an event may do to a session *)

Section registry_step.
Variable socket : string.
Implicit Types (w : World) (o : option string) (s : Session).

Let step (d c : bool) w w' : Prop :=
  ∀ n, slotStep socket d c (sessions w !! n) (sessions w' !! n).

Lemma step_sessions d c w w' : sessions w' = sessions w → step d c w w'.
Proof. intros Heq n. rewrite Heq. by destruct (sessions w !! n). Qed.

Lemma step_trans d w w1 w2 :
  step d false w w1 → step d false w1 w2 → step d false w w2.
Proof.
  intros H1 H2 n. specialize (H1 n). specialize (H2 n).
  unfold slotStep in *.
  destruct (sessions w !! n), (sessions w1 !! n), (sessions w2 !! n);
    intuition congruence.
Qed.

Lemma step_weaken d c w w' : step false c w w' → step d c w w'.
Proof.
  intros H n. specialize (H n). unfold slotStep in *.
  destruct (sessions w !! n), (sessions w' !! n);
    intuition congruence.
Qed.

Lemma step_putSession d c w o s s' :
  getSession w o = Some s →
  name s' = name s → creatorSocketID s' = creatorSocketID s →
  step d c w (putSession o s' w).
Proof.
  intros (k & -> & Hk)%getSession_Some Hname Hcreator n. simpl.
  destruct (decide (k = n)) as [<- | Hne].
  - by rewrite lookup_insert_eq, Hk.
  - rewrite lookup_insert_ne by done. by destruct (sessions w !! n).
Qed.

Lemma step_deleteSession c w o :
  (∀ s, getSession w o = Some s → socket = creatorSocketID s) →
  step true c w (deleteSession o w).
Proof.
  intros Hcreator n. destruct o as [k|]; simpl.
  - destruct (decide (k = n)) as [<- | Hne].
    + rewrite lookup_delete_eq.
      destruct (sessions w !! k) eqn:Hk; [| done]. split; [done |].
      by apply Hcreator.
    + rewrite lookup_delete_ne by done. by destruct (sessions w !! n).
  - by destruct (sessions w !! n).
Qed.

Lemma step_restartTimeout d c w o kind ms :
  step d c w (restartTimeout o kind ms w).
Proof.
  unfold restartTimeout. destruct o as [k|]; [| by apply step_sessions].
  destruct (getSession w (Some k)) as [s|] eqn:Hs;
    [| by apply step_sessions].
  intros n. simpl. by apply (step_putSession d c w (Some k) s).
Qed.

Lemma step_restartAll d w o ms kinds :
  step d false w (restartAll o ms kinds w).
Proof.
  unfold restartAll. revert w.
  induction kinds as [| kind kinds IH]; intros w; cbn [foldl].
  - by apply step_sessions.
  - eapply step_trans; [apply step_restartTimeout | apply IH].
Qed.

Lemma step_handleLeaveSession c w o :
  step true c w (handleLeaveSession socket o w).
Proof.
  unfold handleLeaveSession.
  destruct (getSession w o) as [s|] eqn:Hs; [| by apply step_sessions].
  case_decide as Hcreator.
  - intros n. simpl.
    destruct (getSession_Some _ _ _ Hs) as (k & -> & Hk). simpl.
    rewrite delete_insert_eq.
    apply (step_deleteSession c w (Some k)). intros s0 Hs0.
    simpl in Hs0. congruence.
  - apply step_weaken. by apply step_putSession with s.
Qed.

Lemma step_handleUpdateVoiceDuration w o line sec :
  step false false w (handleUpdateVoiceDuration socket o line sec w).
Proof.
  destruct (getSession w o) as [s|] eqn:Hs;
    [| by unfold handleUpdateVoiceDuration; rewrite Hs; apply step_sessions].
  destruct (decide (socket = creatorSocketID s)) as [Hc|Hc];
    [| by unfold handleUpdateVoiceDuration; rewrite Hs, decide_True;
          [apply step_sessions |]].
  destruct (decide (line = currentVoiceLine s)) as [Hl|Hl].
  - rewrite (handleUpdateVoiceDuration_accepted _ _ _ _ _ _ Hs Hc Hl).
    apply step_restartAll.
  - unfold handleUpdateVoiceDuration. rewrite Hs.
    rewrite decide_False by (intros ?; congruence).
    rewrite decide_True by done. by apply step_sessions.
Qed.

Lemma step_handleAttemptSpectate w target clientID :
  step true false w (handleAttemptSpectate socket target clientID w).
Proof.
  unfold handleAttemptSpectate.
  destruct (getSession w (Some target)) as [s|] eqn:Hs;
    [| by apply step_sessions].
  case_decide; [by apply step_sessions |].
  eapply step_trans; [| apply step_handleLeaveSession].
  intros n. rewrite sessions_spectateJoin.
  by apply (step_putSession true false w (Some target) s).
Qed.

Lemma step_handleConnect w w' clientID draws :
  handleConnect socket clientID draws w = Some w' →
  step false true w w'.
Proof.
  unfold handleConnect. intros Hrun.
  apply bind_Some in Hrun as (k & _ & Hrun).
  apply bind_Some in Hrun as (w1 & Hcreate & Hjoin).
  assert (sessions w' = sessions w1) as Hsame.
  { injection Hjoin as <-.
    exact (sessions_joinSessionAsHost socket (Some k) w1). }
  unfold createSession in Hcreate.
  destruct (sessions w !! k) eqn:Hk; [done |]. injection Hcreate as <-.
  intros n. rewrite Hsame. simpl.
  destruct (decide (k = n)) as [<- | Hne].
  - by rewrite lookup_insert_eq, Hk.
  - rewrite lookup_insert_ne by done. by destruct (sessions w !! n).
Qed.

(** X4.  Across any host event, a session that is still stored under its
    name keeps its [name] and its [creatorSocketID]; a session is removed
    only by [LeaveSession] or [AttemptSpectate] and only when the acting
    socket is its creator; a session appears only on [Connect], created by
    the acting socket and in the lobby. *)
Theorem X4_sessions_keep_identity
    (w w' : World) (event : HostSocket.t) (env : Collaborators) :
  handleHostEvent socket event env w = Some w' →
  ∀ n, slotStep socket (mayLeave event) (isConnect event)
         (sessions w !! n) (sessions w' !! n).
Proof.
  intros Hrun. destruct event; simpl in Hrun;
    try (injection Hrun as <-); cbn [mayLeave isConnect].
  - by eapply step_handleConnect.
  - unfold handleUpdateGameSettingsPreset.
    destruct (getSession w _) as [s|] eqn:Hs; [| by apply step_sessions].
    repeat case_decide; try by apply step_sessions.
    intros n. simpl. by eapply step_putSession.
  - unfold handleUpdateVoiceType.
    destruct (getSession w _) as [s|] eqn:Hs; [| by apply step_sessions].
    intros n. simpl. by eapply step_putSession.
  - apply step_handleUpdateVoiceDuration.
  - apply step_handleAttemptSpectate.
  - apply step_handleLeaveSession.
  - unfold handleGenerateCustomGame.
    destruct (getSession w _) as [s|] eqn:Hs; [| by apply step_sessions].
    repeat case_decide; try by apply step_sessions.
    destruct (generateTriviaGame _ s) as [s'|e] eqn:Hgen;
      [| by apply step_sessions].
    intros n. simpl. rewrite sessions_emitTriviaRoundUpdate. simpl.
    destruct (generator env gameSettings); [| done].
    injection Hgen as <-. by eapply step_putSession.
  - unfold handlePlayAgain.
    destruct (getSession w _) as [s|] eqn:Hs; [| by apply step_sessions].
    case_decide; [by apply step_sessions |].
    intros n. simpl.
    rewrite sessions_emitTriviaRoundUpdate, sessions_emitStateUpdate.
    by eapply step_putSession.
Qed.
End registry_step.

Lemma X4_sessions_keep_identity_witness :
  let w := demoWorld SessionState.Lobby None in
  slotStep "sock-guest" true false
    (sessions w !! "quiz")
    (sessions (handleLeaveSession "sock-guest" (Some "quiz") w) !! "quiz")
  ∧ slotStep "sock-host" true false
      (sessions w !! "quiz")
      (sessions (handleLeaveSession "sock-host" (Some "quiz") w) !! "quiz").
Proof.
  intros w. split.
  - apply (X4_sessions_keep_identity "sock-guest" w _
             HostSocket.LeaveSession
             (mkCollaborators [] (λ _, Generated (Round 0)))).
    reflexivity.
  - apply (X4_sessions_keep_identity "sock-host" w _
             HostSocket.LeaveSession
             (mkCollaborators [] (λ _, Generated (Round 0)))).
    reflexivity.
Defined.

(** ** The creator among the hosts *)

Section creator_hosts.
Implicit Types (w : World) (o : option string) (s : Session).

Lemma creatorHosts_sessions w w' :
  sessions w' = sessions w → creatorHosts w → creatorHosts w'.
Proof. unfold creatorHosts. by intros ->. Qed.

Lemma creatorHosts_getSession w o s :
  creatorHosts w → getSession w o = Some s →
  creatorSocketID s ∈ dom (hosts s).
Proof. intros Hinv (n & -> & Hn)%getSession_Some. by apply (Hinv n). Qed.

Lemma creatorHosts_putSession w o s :
  creatorSocketID s ∈ dom (hosts s) →
  creatorHosts w → creatorHosts (putSession o s w).
Proof.
  intros Hs Hinv. destruct o as [n|]; [| done].
  by apply map_Forall_insert_2.
Qed.

Lemma creatorHosts_deleteSession w o :
  creatorHosts w → creatorHosts (deleteSession o w).
Proof.
  intros Hinv. destruct o as [n|]; [| done]. by apply map_Forall_delete.
Qed.

Lemma creatorHosts_delete_put w o s :
  creatorHosts w → creatorHosts (deleteSession o (putSession o s w)).
Proof.
  intros Hinv. destruct o as [n|]; [| done].
  unfold creatorHosts. simpl. rewrite delete_insert_eq.
  by apply map_Forall_delete.
Qed.

Lemma creatorHosts_restartTimeout w o kind ms :
  creatorHosts w → creatorHosts (restartTimeout o kind ms w).
Proof.
  intros Hinv. unfold restartTimeout. destruct o as [n|]; [| done].
  destruct (getSession w (Some n)) as [s|] eqn:Hs; [| done].
  apply (creatorHosts_sessions
           (putSession (Some n) (set_timeouts (<[kind:=ms]> (timeouts s)) s)
              w)); [done |].
  apply creatorHosts_putSession; [| done].
  change (creatorSocketID s ∈ dom (hosts s)).
  by apply (creatorHosts_getSession w (Some n)).
Qed.

Lemma creatorHosts_restartAll w o ms kinds :
  creatorHosts w → creatorHosts (restartAll o ms kinds w).
Proof.
  unfold restartAll. revert w.
  induction kinds as [| kind kinds IH]; intros w Hinv; cbn [foldl];
    [done |].
  by apply IH, creatorHosts_restartTimeout.
Qed.

Lemma creatorHosts_handleLeaveSession w socket o :
  creatorHosts w → creatorHosts (handleLeaveSession socket o w).
Proof.
  intros Hinv. unfold handleLeaveSession.
  destruct (getSession w o) as [s|] eqn:Hs; [| done].
  case_decide as Hcreator.
  - apply (creatorHosts_sessions
             (deleteSession o (putSession o (disconnectHost socket s) w)));
      [done |].
    by apply creatorHosts_delete_put.
  - apply creatorHosts_putSession; [| done].
    pose proof (creatorHosts_getSession _ _ _ Hinv Hs).
    unfold disconnectHost. simpl. set_solver.
Qed.

Lemma creatorHosts_handleAttemptSpectate w socket target clientID :
  creatorHosts w →
  creatorHosts (handleAttemptSpectate socket target clientID w).
Proof.
  intros Hinv. unfold handleAttemptSpectate.
  destruct (getSession w (Some target)) as [s|] eqn:Hs; [| done].
  case_decide; [done |].
  apply creatorHosts_handleLeaveSession.
  apply (creatorHosts_sessions
           (putSession (Some target) (connectHost socket clientID s) w));
    [apply sessions_spectateJoin |].
  apply creatorHosts_putSession; [| done].
  pose proof (creatorHosts_getSession _ _ _ Hinv Hs).
  unfold connectHost. simpl. set_solver.
Qed.

Lemma creatorHosts_handleConnect w w' socket clientID draws :
  handleConnect socket clientID draws w = Some w' →
  creatorHosts w → creatorHosts w'.
Proof.
  unfold handleConnect. intros Hrun Hinv.
  apply bind_Some in Hrun as (k & _ & Hrun).
  apply bind_Some in Hrun as (w1 & Hcreate & Hjoin).
  apply (creatorHosts_sessions w1).
  { injection Hjoin as <-.
    exact (sessions_joinSessionAsHost socket (Some k) w1). }
  unfold createSession in Hcreate.
  destruct (sessions w !! k); [done |]. injection Hcreate as <-.
  apply (creatorHosts_putSession w (Some k)); [| done].
  simpl. set_solver.
Qed.

Lemma creatorHosts_handleHostEvent w w' socket event env :
  handleHostEvent socket event env w = Some w' →
  creatorHosts w → creatorHosts w'.
Proof.
  intros Hrun Hinv. destruct event; simpl in Hrun;
    try (injection Hrun as <-).
  - by eapply creatorHosts_handleConnect.
  - unfold handleUpdateGameSettingsPreset.
    destruct (getSession w _) as [s|] eqn:Hs; [| done].
    repeat case_decide; try done.
    eapply (creatorHosts_sessions (putSession _ _ w)); [reflexivity |].
    apply creatorHosts_putSession; [| done].
    exact (creatorHosts_getSession _ _ _ Hinv Hs).
  - unfold handleUpdateVoiceType.
    destruct (getSession w _) as [s|] eqn:Hs; [| done].
    eapply (creatorHosts_sessions (putSession _ _ w)); [reflexivity |].
    apply creatorHosts_putSession; [| done].
    exact (creatorHosts_getSession _ _ _ Hinv Hs).
  - set (o := Socket.sessionName _).
    destruct (getSession w o) as [s|] eqn:Hs;
      [| by unfold handleUpdateVoiceDuration; rewrite Hs].
    destruct (decide (socket = creatorSocketID s)) as [Hc|Hc];
      [| by unfold handleUpdateVoiceDuration; rewrite Hs, decide_True].
    destruct (decide (voiceLine = currentVoiceLine s)) as [Hl|Hl].
    + rewrite (handleUpdateVoiceDuration_accepted _ _ _ _ _ _ Hs Hc Hl).
      by apply creatorHosts_restartAll.
    + unfold handleUpdateVoiceDuration. rewrite Hs.
      rewrite decide_False by (intros ?; congruence).
      by rewrite decide_True.
  - by apply creatorHosts_handleAttemptSpectate.
  - by apply creatorHosts_handleLeaveSession.
  - unfold handleGenerateCustomGame.
    destruct (getSession w _) as [s|] eqn:Hs; [| done].
    repeat case_decide; try done.
    pose proof (creatorHosts_getSession _ _ _ Hinv Hs).
    destruct (generator env gameSettings); simpl; [| done].
    set (o := Socket.sessionName _) in *.
    apply (creatorHosts_sessions
             (putSession o
                (set_triviaRound (Some round)
                   (set_triviaGameSettingsPreset Custom s)) w));
      [| by apply creatorHosts_putSession].
    simpl. by rewrite sessions_emitTriviaRoundUpdate.
  - unfold handlePlayAgain.
    destruct (getSession w _) as [s|] eqn:Hs; [| done].
    case_decide; [done |].
    pose proof (creatorHosts_getSession _ _ _ Hinv Hs).
    set (o := Socket.sessionName _) in *.
    apply (creatorHosts_sessions (putSession o (resetGame s) w));
      [| by apply creatorHosts_putSession].
    simpl.
    by rewrite sessions_emitTriviaRoundUpdate, sessions_emitStateUpdate.
Qed.
End creator_hosts.

(** X5.  Along every run of host events from a registry in which each
    creator is a host of its session (the empty registry of a fresh
    server, for one), the creator of every live session is still one of
    its hosts: a creator leaves only together with its session. *)
Theorem X5_creator_stays_host
    (inputs : list (string * HostSocket.t * Collaborators)) (w w' : World) :
  creatorHosts w →
  handleHostEvents inputs w = Some w' →
  creatorHosts w'.
Proof.
  revert w. induction inputs as [| [[socket event] env] rest IH];
    intros w Hinv Hrun; simpl in Hrun.
  - by injection Hrun as <-.
  - destruct (handleHostEvent socket event env w) as [w1|] eqn:Hstep;
      [| done].
    simpl in Hrun. eauto using creatorHosts_handleHostEvent.
Qed.

Lemma X5_creator_stays_host_witness :
  ∃ w', handleHostEvents demoConnects (initialWorld false) = Some w'
        ∧ creatorHosts w'.
Proof.
  destruct (handleHostEvents demoConnects (initialWorld false))
    as [w'|] eqn:Hrun; [| by vm_compute in Hrun].
  exists w'. split; [done |].
  apply (X5_creator_stays_host demoConnects (initialWorld false));
    [compute_done | exact Hrun].
Defined.

(** ** Routing *)

Lemma getSession_named w n : getSession w (Some n) = sessions w !! n.
Proof. done. Qed.

(** Every handler that is given a session name returns at its first guard
    when [getSession] finds nothing under it. *)
Ltac first_guard Hnone :=
  unfold handleUpdateGameSettingsPreset, handleUpdateVoiceType,
    handleUpdateVoiceDuration, handleLeaveSession,
    handleGenerateCustomGame, handlePlayAgain;
  by rewrite Hnone.

Lemma handleConnect_Some w w' socket clientID draws :
  handleConnect socket clientID draws w = Some w' →
  ∃ n, generateSessionName w draws = Some n
    ∧ sessions w !! n = None
    ∧ w' = joinSessionAsHost socket (Some n)
             (set_sessions
                (<[n:=newSession n socket clientID]> (sessions w)) w).
Proof.
  unfold handleConnect. intros Hrun.
  apply bind_Some in Hrun as (n & Hname & Hrun).
  apply bind_Some in Hrun as (w1 & Hcreate & Hjoin).
  unfold createSession in Hcreate.
  destruct (sessions w !! n) eqn:Hfresh; [done |].
  injection Hcreate as <-. injection Hjoin as <-. by exists n.
Qed.

(** X2.  An event other than [Connect] and [AttemptSpectate] that arrives
    on a socket whose session name is undefined, or names no live session,
    is dropped: the router returns normally and the world is unchanged
    (nothing is stored, emitted or restarted). *)
Theorem X2_events_without_live_session_are_dropped
    (w : World) (socket : string) (event : HostSocket.t)
    (env : Collaborators) :
  preSession event = false →
  getSession w (Socket.sessionName (socketData w socket)) = None →
  handleHostEvent socket event env w = Some w.
Proof.
  intros Hpre Hnone.
  destruct event; try discriminate Hpre; simpl; f_equal;
    first_guard Hnone.
Qed.

Lemma X2_events_without_live_session_witness :
  let w := demoWorld SessionState.GameOver None in
  handleHostEvent "sock-new" HostSocket.PlayAgain
    (mkCollaborators [] (λ _, Generated (Round 0))) w = Some w.
Proof.
  intros w.
  apply (X2_events_without_live_session_are_dropped w "sock-new");
    reflexivity.
Defined.

(** X6.  Once the creator has left, the hosts still attached to the
    cancelled session are cut off: the session is gone from the registry,
    their sockets still carry its name, and every event they send other
    than [Connect] and [AttemptSpectate] is dropped. *)
Theorem X6_hosts_of_a_cancelled_session_are_cut_off
    (w : World) (creator other n : string) (session : Session)
    (event : HostSocket.t) (env env' : Collaborators) :
  Socket.sessionName (socketData w creator) = Some n →
  sessions w !! n = Some session →
  creator = creatorSocketID session →
  Socket.sessionName (socketData w other) = Some n →
  preSession event = false →
  ∃ w1, handleHostEvent creator HostSocket.LeaveSession env w = Some w1
    ∧ sessions w1 !! n = None
    ∧ Socket.sessionName (socketData w1 other) = Some n
    ∧ handleHostEvent other event env' w1 = Some w1.
Proof.
  intros Hrouted Hn Hcreator Hother Hpre.
  exists (handleLeaveSession creator (Some n) w).
  assert (sessions (handleLeaveSession creator (Some n) w) !! n = None
          ∧ sockets (handleLeaveSession creator (Some n) w) = sockets w)
    as [Hgone Hsockets].
  { unfold handleLeaveSession. simpl. rewrite Hn.
    rewrite decide_True by done. simpl. split; [| done].
    apply lookup_delete_eq. }
  assert (Socket.sessionName
            (socketData (handleLeaveSession creator (Some n) w) other)
          = Some n) as Hstill.
  { unfold socketData. by rewrite Hsockets. }
  split_and!; [| done | done |].
  - simpl. by rewrite Hrouted.
  - set (w1 := handleLeaveSession creator (Some n) w) in *. clearbody w1.
    assert (getSession w1 (Socket.sessionName (socketData w1 other))
            = None) as Hnone by by rewrite Hstill.
    destruct event; try discriminate Hpre; simpl; f_equal;
      first_guard Hnone.
Qed.

Lemma X6_hosts_of_a_cancelled_session_witness :
  let w := demoWorld SessionState.ClueSelection None in
  ∃ w1, handleHostEvent "sock-host" HostSocket.LeaveSession
          (mkCollaborators [] (λ _, Generated (Round 0))) w = Some w1
    ∧ handleHostEvent "sock-guest"
        (HostSocket.UpdateVoiceType (Voice 3))
        (mkCollaborators [] (λ _, Generated (Round 0))) w1 = Some w1.
Proof.
  intros w.
  destruct (X6_hosts_of_a_cancelled_session_are_cut_off w
              "sock-host" "sock-guest" "quiz"
              (quizSession SessionState.ClueSelection None)
              (HostSocket.UpdateVoiceType (Voice 3))
              (mkCollaborators [] (λ _, Generated (Round 0)))
              (mkCollaborators [] (λ _, Generated (Round 0))))
    as (w1 & Hleave & _ & _ & Hdrop); try reflexivity.
  by exists w1.
Defined.

(** X7.  When [handleConnect] returns, the socket's session name is the
    name generated, the session stored under it is the new lobby session
    with the socket as creator and only host, so the socket passes the
    guard of the settings operations; and the connection is still a host
    of every session it was a host of before: connecting does not leave. *)
Theorem X7_connect_makes_the_creator
    (w w' : World) (socket clientID : string) (draws : list string) :
  handleConnect socket clientID draws w = Some w' →
  ∃ n, generateSessionName w draws = Some n
    ∧ Socket.sessionName (socketData w' socket) = Some n
    ∧ getSession w' (Some n) = Some (newSession n socket clientID)
    ∧ mayConfigure w' socket (Socket.sessionName (socketData w' socket))
    ∧ ∀ m, isHostOf w socket m → isHostOf w' socket m.
Proof.
  intros (n & Hname & Hfresh & ->)%handleConnect_Some.
  exists n.
  assert (Socket.sessionName
            (socketData
               (joinSessionAsHost socket (Some n)
                  (set_sessions
                     (<[n:=newSession n socket clientID]> (sessions w)) w))
               socket) = Some n) as Hrouted.
  { unfold joinSessionAsHost, socketData. simpl.
    by repeat (rewrite lookup_insert_eq; simpl). }
  assert (getSession
            (joinSessionAsHost socket (Some n)
               (set_sessions
                  (<[n:=newSession n socket clientID]> (sessions w)) w))
            (Some n) = Some (newSession n socket clientID)) as Hstored.
  { rewrite getSession_named, sessions_joinSessionAsHost.
    apply lookup_insert_eq. }
  split_and!; [done | done | done | |].
  - rewrite Hrouted. by exists (newSession n socket clientID).
  - intros m (s & Hm & Hin). exists s. split; [| done].
    rewrite sessions_joinSessionAsHost. simpl.
    rewrite lookup_insert_ne; [done |]. congruence.
Qed.

Lemma X7_connect_makes_the_creator_witness :
  let w := demoWorld SessionState.ClueSelection None in
  ∃ w', handleConnect "sock-guest" "client-b" ["quiz"; "sand"] w = Some w'
    ∧ isHostOf w' "sock-guest" "quiz"
    ∧ getSession w' (Some "sand")
      = Some (newSession "sand" "sock-guest" "client-b").
Proof.
  intros w.
  destruct (handleConnect "sock-guest" "client-b" ["quiz"; "sand"] w)
    as [w'|] eqn:Hrun; [| by vm_compute in Hrun].
  exists w'. split; [done |].
  destruct (X7_connect_makes_the_creator w w' "sock-guest" "client-b"
              ["quiz"; "sand"] Hrun)
    as (n & Hname & _ & Hstored & _ & Hkept).
  vm_compute in Hname. injection Hname as <-.
  split; [| exact Hstored].
  apply Hkept. exists (quizSession SessionState.ClueSelection None).
  split; [reflexivity | by vm_compute].
Defined.


Example voiceType_from_a_spectator_during_a_clue :
  let w := demoWorld SessionState.ReadingClue None in
  let w' := handleUpdateVoiceType "sock-guest" (Some "quiz") (Voice 2) w in
  voiceType <$> getSession w' (Some "quiz") = Some (Voice 2)
  ∧ effectsSince w w'
    = [Emit (ToHosts {["sock-guest"; "sock-host"]})
         (UpdateVoiceType (Voice 2) true)].
Proof. by vm_compute. Qed.

(** * Properties of the host layout *)

Section host_layout.
Import HostLayout.

Lemma jsIndex_None {A} (l : list A) (i : Z) :
  jsIndex l i = None ↔ (i < 0 ∨ Z.of_nat (length l) ≤ i)%Z.
Proof.
  unfold jsIndex. case_decide as Hpos.
  - rewrite lookup_ge_None. lia.
  - split; [lia | done].
Qed.

(** X8.  Whenever [getGameComponent] returns an element, the element is
    the one [getGameComponentState] announces for the session state: the
    key of the transition and the component shown agree. *)
Theorem X8_component_matches_state
    (context : LayoutContext) (st : LayoutState) (element : Element) :
  getGameComponent context st = Renders element →
  getGameComponentState (sessionState context)
  = Some (componentOf element).
Proof.
  unfold getGameComponent.
  destruct (triviaRound context) as [round|];
    [destruct (jsIndex (categories round) (categoryIndex context)) |];
    destruct (sessionState context);
    repeat case_decide; intros [= <-]; try done;
    intuition discriminate.
Qed.

Lemma X8_component_matches_state_witness :
  getGameComponentState SessionState.WagerResponse
  = Some GameComponentState.Wager.
Proof.
  exact (X8_component_matches_state
           (mkContext SessionState.WagerResponse
              (Some (mkRound [mkCategory [ClueContent 1]])) 0 0)
           (mkLayoutState true 1 3 false)
           (HostWager (mkCategory [ClueContent 1]) (Some (ClueContent 1))
              (1%Z, 3%Z))
           eq_refl).
Defined.

(** X9.  [getGameComponentState] has no value exactly for
    [ReadingCategoryNames] and [ReadingClueSelection], and these are
    exactly the session states in which [getGameComponent] returns no
    element whatever the context holds. *)
Theorem X9_reading_states_have_no_component (s : SessionState.t) :
  (getGameComponentState s = None
   ↔ s = SessionState.ReadingCategoryNames
     ∨ s = SessionState.ReadingClueSelection)
  ∧ (getGameComponentState s = None
     ↔ ∀ context st element,
         sessionState context = s →
         getGameComponent context st ≠ Renders element).
Proof.
  split.
  - destruct s; simpl; intuition discriminate.
  - split.
    + intros Hnone context st element Hs. unfold getGameComponent.
      rewrite Hs.
      destruct (triviaRound context) as [round|];
        [destruct (jsIndex (categories round) (categoryIndex context)) |];
        destruct s; try discriminate Hnone; repeat case_decide;
        try done; intuition discriminate.
    + intros Hnever.
      pose (context := mkContext s (Some (mkRound [mkCategory []])) 0 0).
      pose (st := mkLayoutState true 0 0 false).
      destruct (getGameComponent context st) as [element| |] eqn:Hout.
      * by destruct (Hnever context st element eq_refl).
      * by destruct s.
      * by destruct s.
Qed.

(** X10.  [getGameComponent] throws exactly when the session is out of
    the lobby and either there is no round, or the state is not
    [ClueSelection] and an index is negative or the category index is past
    the last category.  A clue index past the last clue does not throw,
    and in [GameOver] the game-over screen needs a current clue like any
    clue screen. *)
Theorem X10_layout_throws
    (context : LayoutContext) (st : LayoutState) :
  (∃ thrown, getGameComponent context st = Throws thrown)
  ↔ sessionState context ≠ SessionState.Lobby
    ∧ match triviaRound context with
      | None => True
      | Some round =>
          sessionState context ≠ SessionState.ClueSelection
          ∧ (categoryIndex context < 0
             ∨ clueIndex context < 0
             ∨ Z.of_nat (length (categories round)) ≤ categoryIndex context)%Z
      end.
Proof.
  unfold getGameComponent.
  destruct (decide (sessionState context = SessionState.Lobby)) as [Hl|Hl].
  { split; [by intros [? ?] | by intros [? _]]. }
  destruct (triviaRound context) as [round|];
    [| split; [by intros _ | by eauto]].
  destruct (decide (sessionState context = SessionState.ClueSelection))
    as [Hc|Hc].
  { split; [by intros [? ?] | by intros (_ & ? & _)]. }
  destruct (decide (categoryIndex context < 0 ∨ clueIndex context < 0)%Z)
    as [Hneg|Hneg].
  { split; [intros _ | by eauto]. split_and!; [done | done | lia]. }
  destruct (jsIndex (categories round) (categoryIndex context))
    as [category|] eqn:Hcat.
  - assert (¬ (categoryIndex context < 0
               ∨ Z.of_nat (length (categories round))
                 ≤ categoryIndex context)%Z) as Hin.
    { rewrite <- jsIndex_None. congruence. }
    split.
    + intros [thrown Hthrown]. by repeat case_decide.
    + intros (_ & _ & Hout). lia.
  - apply jsIndex_None in Hcat. split; [| by eauto].
    intros _. split_and!; [done | done | lia].
Qed.

Example gameOver_without_current_clue :
  getGameComponent
    (mkContext SessionState.GameOver (Some (mkRound [mkCategory []]))
       (-1) (-1))
    (mkLayoutState false 0 0 false)
  = Throws (Error "HostLayout: missing current clue").
Proof. reflexivity. Qed.

Example clue_index_past_the_end :
  getGameComponent
    (mkContext SessionState.ReadingClue (Some (mkRound [mkCategory []]))
       0 5)
    (mkLayoutState false 0 0 false)
  = Renders (HostClue (mkCategory []) None None None).
Proof. reflexivity. Qed.

(** X11.  Muting plays nothing.  Unmuting plays exactly one track: the
    game music exactly when a change of session state would start the game
    music, otherwise the lobby music; in the lobby it is the lobby music
    whatever numbers the enum gives its members. *)
Theorem X11_unmuting_plays_one_track
    (ordinal : SessionState.t → Z) (context : LayoutContext) :
  toggleMute ordinal context true = (true, [])
  ∧ (∃ track,
       toggleMute ordinal context false = (false, [track])
       ∧ (track = GameMusic
          ↔ musicOnStateChange ordinal context = [GameMusic])
       ∧ (track = LobbyMusic ↔ musicOnStateChange ordinal context = []))
  ∧ (sessionState context = SessionState.Lobby →
     toggleMute ordinal context false = (false, [LobbyMusic])
     ∧ musicOnStateChange ordinal context = []).
Proof.
  unfold toggleMute, musicOnStateChange. split_and!; [done | |].
  - case_decide; eexists; (split; [reflexivity |]);
      intuition discriminate.
  - intros ->. destruct (decide _) as [Hgt|_]; [lia | done].
Qed.
End host_layout.

(** * Properties of the speech request *)

Section speech_request.
Import Tts.
Variables (env : Env) (formatDebugLog : string → string).
Variables (toBase64 : list Byte.byte → string) (fetch : Request → Fetched).
Variable voiceLine : string.

Let run := getVoiceBase64Audio env formatDebugLog toBase64 fetch voiceLine.

(** X12.  [getVoiceBase64Audio] sends a request exactly when
    [USE_OPENAI_TTS] is a non-empty string, whatever the string says (so
    also for the string "false"); without one it returns nothing and does
    not throw.  It sends at most one request, for the voice line given.
    It returns audio only when the request was answered with an ok
    response, and the audio is then the base64 rendering of the body; a
    response that is not ok, or a rejected request, makes it throw. *)
Theorem X12_speech_request :
  (run.1 = [] ↔ truthy (USE_OPENAI_TTS env) = false)
  ∧ (run.1 = [] → run.2 = Returned None)
  ∧ (∀ v, USE_OPENAI_TTS env = Some v → v ≠ "" →
       ∃ request, run.1 = [request] ∧ input request = voiceLine)
  ∧ (∀ audio, run.2 = Returned (Some audio) →
       ∃ request response,
         run.1 = [request]
         ∧ fetch request = Resolved response
         ∧ ok response = true
         ∧ audio = toBase64 (arrayBuffer response))
  ∧ (∀ request, run.1 = [request] →
       (∀ response, fetch request = Resolved response →
                    ok response = false → ∃ e, run.2 = Threw e)
       ∧ (∀ e, fetch request = Rejected e → run.2 = Threw e)).
Proof.
  subst run. unfold getVoiceBase64Audio.
  destruct (truthy (USE_OPENAI_TTS env)) eqn:Hflag; simpl.
  - split_and!; try done.
    + intros v Hv Hne. eexists. by split.
    + intros audio Haudio.
      destruct (fetch _) as [response | e] eqn:Hfetch; [| done].
      destruct (ok response) eqn:Hok; simpl in Haudio; [| done].
      injection Haudio as <-. by eexists _, response.
    + intros request [= <-]. split.
      * intros response -> ->. simpl. eauto.
      * by intros e ->.
  - split_and!; try done.
    intros v Hv Hne. rewrite Hv in Hflag. simpl in Hflag.
    apply negb_false_iff, String.eqb_eq in Hflag. done.
Qed.

(** X16.  No request leaves without a key: the module refuses to load
    when [OPENAI_SECRET_KEY] is undefined or empty, so every request that
    is sent carries "Bearer " followed by the non-empty key, and goes by
    POST to the speech endpoint. *)
Theorem X16_requests_carry_the_key (request : Request) :
  request
  ∈ (loadAndCall env formatDebugLog toBase64 fetch voiceLine).1 →
  ∃ key, OPENAI_SECRET_KEY env = Some key
    ∧ key ≠ ""
    ∧ authorization request = "Bearer " +:+ key
    ∧ method request = "POST"
    ∧ url request = "https://api.openai.com/v1/audio/speech".
Proof.
  unfold loadAndCall, moduleLoads, getVoiceBase64Audio.
  destruct (OPENAI_SECRET_KEY env) as [key|]; simpl;
    [| by intros ?%elem_of_nil].
  destruct (String.eqb key "") eqn:Hkey; simpl;
    [by intros ?%elem_of_nil |].
  apply String.eqb_neq in Hkey.
  destruct (truthy (USE_OPENAI_TTS env)); simpl;
    [| by intros ?%elem_of_nil].
  intros ->%list_elem_of_singleton. by exists key.
Qed.
End speech_request.

Example speech_flag_set_to_false_enables_requests :
  length
    (Tts.getVoiceBase64Audio (Tts.mkEnv (Some "sk-1") (Some "false"))
       id (λ _, "QUJD") (λ _, Tts.Rejected "offline") "Hello").1
  = 1.
Proof. reflexivity. Qed.

(** * Properties of the display tables *)

Section display_tables.
Import UiConstants.

(** X13.  Each table gives distinct entries distinct texts: no two
    announcements share a message, no two clue bonuses share a display
    name or a description, and no two feedback types share a label. *)
Theorem X13_display_texts_are_distinct :
  Inj (=) (=) SESSION_ANNOUNCEMENT_MESSAGES
  ∧ Inj (=) (=) TRIVIA_CLUE_BONUS_DISPLAY_NAMES
  ∧ Inj (=) (=) TRIVIA_CLUE_BONUS_DESCRIPTIONS
  ∧ Inj (=) (=) FEEDBACK_TYPE_DISPLAY_NAMES.
Proof. split_and!; intros [] [] Heq; done. Qed.
End display_tables.

(** * What an event emits, and to whom *)

Lemma trace_putSession o s w : trace (putSession o s w) = trace w.
Proof. by destruct o. Qed.

Lemma trace_deleteSession o w : trace (deleteSession o w) = trace w.
Proof. by destruct o. Qed.

Lemma restartTimeout_absent o kind ms w :
  getSession w o = None → restartTimeout o kind ms w = w.
Proof. intros Hnone. unfold restartTimeout. destruct o; by rewrite ?Hnone. Qed.

Section addressing.
Variables (w0 : World) (socket : string) (o : option string).
Implicit Types (w : World).

(** [w'] is [w] with some effects added, each one addressed to the acting
    socket or the session [o]. *)
Let reaches w w' : Prop :=
  ∃ es, trace w' = trace w ++ es ∧ Forall (addressedTo w0 socket o) es.

Lemma reaches_quiet w w' : trace w' = trace w → reaches w w'.
Proof. intros Heq. exists []. by rewrite app_nil_r. Qed.

Lemma reaches_trans w w1 w2 : reaches w w1 → reaches w1 w2 → reaches w w2.
Proof.
  intros (es1 & H1 & F1) (es2 & H2 & F2). exists (es1 ++ es2).
  split; [by rewrite H2, H1, app_assoc | by apply Forall_app].
Qed.

Lemma reaches_perform w e :
  addressedTo w0 socket o e → reaches w (perform e w).
Proof. intros He. exists [e]. split; [done | by constructor]. Qed.

Lemma reaches_restartTimeout w kind ms :
  reaches w (restartTimeout o kind ms w).
Proof.
  destruct (getSession w o) as [s|] eqn:Hs.
  - destruct (restartTimeout_found w o s kind ms Hs) as (n & Ho & Htr & _).
    exists [TimeoutRestarted n kind ms]. split; [done |].
    constructor; [| done]. simpl. by symmetry.
  - rewrite restartTimeout_absent by done. by apply reaches_quiet.
Qed.

Lemma reaches_restartAll w ms kinds : reaches w (restartAll o ms kinds w).
Proof.
  unfold restartAll. revert w.
  induction kinds as [| kind kinds IH]; intros w; cbn [foldl].
  - by apply reaches_quiet.
  - eapply reaches_trans; [apply reaches_restartTimeout | apply IH].
Qed.

Lemma reaches_emitStateUpdate w : reaches w (emitStateUpdate o w).
Proof.
  unfold emitStateUpdate.
  destruct (getSession w o); [by apply reaches_perform | by apply reaches_quiet].
Qed.

Lemma reaches_emitTriviaRoundUpdate w :
  reaches w (emitTriviaRoundUpdate o w).
Proof.
  unfold emitTriviaRoundUpdate.
  destruct (getSession w o); [by apply reaches_perform | by apply reaches_quiet].
Qed.

Lemma reaches_handleLeaveSession w :
  reaches w (handleLeaveSession socket o w).
Proof.
  unfold handleLeaveSession.
  destruct (getSession w o) as [s|] eqn:Hs; [| by apply reaches_quiet].
  case_decide.
  - exists [Emit (RoomExceptSender o socket) CancelGame].
    split; [| by constructor].
    simpl. by rewrite trace_deleteSession, trace_putSession.
  - apply reaches_quiet. apply trace_putSession.
Qed.

Lemma reaches_handleUpdateVoiceDuration line sec :
  reaches w0 (handleUpdateVoiceDuration socket o line sec w0).
Proof.
  destruct (getSession w0 o) as [s|] eqn:Hs;
    [| by unfold handleUpdateVoiceDuration; rewrite Hs; apply reaches_quiet].
  destruct (decide (socket = creatorSocketID s)) as [Hc|Hc];
    [| by unfold handleUpdateVoiceDuration; rewrite Hs, decide_True;
          [apply reaches_quiet |]].
  destruct (decide (line = currentVoiceLine s)) as [Hl|Hl].
  - rewrite (handleUpdateVoiceDuration_accepted _ _ _ _ _ _ Hs Hc Hl).
    apply reaches_restartAll.
  - unfold handleUpdateVoiceDuration. rewrite Hs.
    rewrite decide_False by (intros ?; congruence).
    rewrite decide_True by done. by apply reaches_quiet.
Qed.

Lemma reaches_handleUpdateGameSettingsPreset preset :
  reaches w0 (handleUpdateGameSettingsPreset socket o preset w0).
Proof.
  unfold handleUpdateGameSettingsPreset.
  destruct (getSession w0 o) as [s|] eqn:Hs; [| by apply reaches_quiet].
  repeat case_decide; try by apply reaches_quiet.
  eexists [_]. split; [simpl; by rewrite trace_putSession |].
  constructor; [| done]. simpl. eauto.
Qed.

Lemma reaches_handleUpdateVoiceType voice :
  reaches w0 (handleUpdateVoiceType socket o voice w0).
Proof.
  unfold handleUpdateVoiceType.
  destruct (getSession w0 o) as [s|] eqn:Hs; [| by apply reaches_quiet].
  eexists [_]. split; [simpl; by rewrite trace_putSession |].
  constructor; [| done]. simpl. eauto.
Qed.

Lemma reaches_handleGenerateCustomGame settings gen :
  reaches w0 (handleGenerateCustomGame socket o settings gen w0).
Proof.
  unfold handleGenerateCustomGame.
  destruct (getSession w0 o) as [s|] eqn:Hs; [| by apply reaches_quiet].
  repeat case_decide; try by apply reaches_quiet.
  destruct (gen settings) as [round | e]; simpl.
  - eapply reaches_trans; [| by apply reaches_perform].
    eapply reaches_trans; [| apply reaches_emitTriviaRoundUpdate].
    eexists [_; _].
    split; [simpl; by rewrite trace_putSession, <- app_assoc |].
    repeat constructor. simpl. eauto.
  - eexists [_; _]. split; [simpl; by rewrite <- app_assoc |].
    by repeat constructor.
Qed.

Lemma reaches_handlePlayAgain :
  reaches w0 (handlePlayAgain socket o w0).
Proof.
  unfold handlePlayAgain.
  destruct (getSession w0 o) as [s|] eqn:Hs; [| by apply reaches_quiet].
  case_decide; [by apply reaches_quiet |].
  eapply reaches_trans; [| by apply reaches_perform].
  eapply reaches_trans; [| apply reaches_emitTriviaRoundUpdate].
  eapply reaches_trans; [| apply reaches_emitStateUpdate].
  apply reaches_quiet. apply trace_putSession.
Qed.
End addressing.

(** X14.  Whatever a host event other than [AttemptSpectate] emits stays
    with the acting socket and the session the event is aimed at: every
    emission goes to the acting socket, to the hosts of that session or to
    its room, every callback answers the acting socket, and every timeout
    restarted belongs to that session. *)
Theorem X14_effects_stay_with_the_session
    (w w' : World) (socket : string) (event : HostSocket.t)
    (env : Collaborators) :
  isSpectate event = false →
  handleHostEvent socket event env w = Some w' →
  Forall (addressedTo w socket (eventSession socket event env w))
    (effectsSince w w').
Proof.
  intros Hevent Hrun.
  enough (∃ es, trace w' = trace w ++ es
            ∧ Forall (addressedTo w socket
                        (eventSession socket event env w)) es)
    as (es & Htrace & Hall) by by rewrite (effectsSince_app _ _ _ Htrace).
  destruct event; try discriminate Hevent; simpl in Hrun;
    try (injection Hrun as <-); cbn [eventSession].
  - apply handleConnect_Some in Hrun as (n & _ & _ & ->).
    exists []. split; [| done]. rewrite app_nil_r.
    unfold joinSessionAsHost. simpl. by destruct (_ !! n).
  - apply reaches_handleUpdateGameSettingsPreset.
  - apply reaches_handleUpdateVoiceType.
  - apply reaches_handleUpdateVoiceDuration.
  - apply reaches_handleLeaveSession.
  - apply reaches_handleGenerateCustomGame.
  - apply reaches_handlePlayAgain.
Qed.

Lemma X14_effects_stay_with_the_session_witness :
  let w := demoWorld SessionState.Lobby None in
  Forall (addressedTo w "sock-host" (Some "quiz"))
    (effectsSince w
       (handleGenerateCustomGame "sock-host" (Some "quiz") (Settings 1)
          (λ _, Generated (Round 7)) w)).
Proof.
  intros w.
  apply (X14_effects_stay_with_the_session w _ "sock-host"
           (HostSocket.GenerateCustomGame (Settings 1))
           (mkCollaborators [] (λ _, Generated (Round 7))));
    reflexivity.
Defined.

(** X15.  A host event never re-routes another connection: the session
    name and the rooms stored for every socket other than the acting one
    are as before, and only [Connect] and [AttemptSpectate] change those
    of the acting socket. *)
Theorem X15_only_the_acting_socket_is_rerouted
    (w w' : World) (socket : string) (event : HostSocket.t)
    (env : Collaborators) :
  handleHostEvent socket event env w = Some w' →
  (∀ other, other ≠ socket → sockets w' !! other = sockets w !! other)
  ∧ (preSession event = false → sockets w' = sockets w).
Proof.
  intros Hrun.
  assert (∀ o x, sockets (joinSessionAsHost socket o x) = sockets x
                 ∨ ∃ d, sockets (joinSessionAsHost socket o x)
                        = <[socket := d]> (sockets x)) as Hjoin.
  { intros o x. unfold joinSessionAsHost. destruct o; [| by left].
    destruct (getSession x _); [right; by eexists | by left]. }
  assert (∀ o x, sockets (handleLeaveSession socket o x) = sockets x)
    as Hleave.
  { intros o x. unfold handleLeaveSession.
    destruct (getSession x o); [| done]. case_decide; by destruct o. }
  assert (∀ o k ms x, sockets (restartTimeout o k ms x) = sockets x)
    as Hrestart.
  { intros o k ms x. unfold restartTimeout. destruct o; [| done].
    by destruct (getSession x _). }
  destruct event; simpl in Hrun; try (injection Hrun as <-);
    cbn [preSession].
  - apply handleConnect_Some in Hrun as (n & _ & _ & ->).
    split; [| done]. intros other Hother.
    destruct (Hjoin (Some n)
                (set_sessions
                   (<[n:=newSession n socket clientID]> (sessions w)) w))
      as [-> | [d ->]]; [done |].
    simpl. by rewrite lookup_insert_ne.
  - unfold handleUpdateGameSettingsPreset.
    destruct (getSession w _); [| done].
    repeat case_decide; try done. simpl. by destruct (Socket.sessionName _).
  - unfold handleUpdateVoiceType.
    destruct (getSession w _); [| done].
    simpl. by destruct (Socket.sessionName _).
  - set (o := Socket.sessionName _).
    assert (sockets (handleUpdateVoiceDuration socket o voiceLine
                       durationSec w) = sockets w) as ->; [| done].
    unfold handleUpdateVoiceDuration.
    destruct (getSession w o) as [s|]; [| done].
    repeat case_decide; try done.
    destruct (currentAnnouncement s), (state s);
      by rewrite ?Hrestart.
  - split; [| done]. intros other Hother.
    unfold handleAttemptSpectate.
    destruct (getSession w _) as [s|]; [| done].
    case_decide; [done |]. rewrite Hleave.
    unfold spectateJoin. simpl.
    rewrite lookup_insert_eq. simpl. by rewrite lookup_insert_ne.
  - by rewrite Hleave.
  - unfold handleGenerateCustomGame.
    destruct (getSession w _); [| done].
    repeat case_decide; try done.
    destruct (generator env gameSettings); simpl; [| done].
    unfold emitTriviaRoundUpdate.
    destruct (getSession _ _); by destruct (Socket.sessionName _).
  - unfold handlePlayAgain.
    destruct (getSession w _); [| done]. case_decide; [done |].
    unfold emitLeaderboardUpdate, emitTriviaRoundUpdate, emitStateUpdate.
    simpl. repeat (destruct (getSession _ _); simpl);
      by destruct (Socket.sessionName _).
Qed.

Lemma X15_only_the_acting_socket_witness :
  let w := demoWorld SessionState.Lobby None in
  sockets (handleAttemptSpectate "sock-guest" "blue" "client-b" w)
    !! "sock-host"
  = sockets w !! "sock-host".
Proof.
  intros w.
  apply (X15_only_the_acting_socket_is_rerouted w _ "sock-guest"
           (HostSocket.AttemptSpectate "blue" "client-b")
           (mkCollaborators [] (λ _, Generated (Round 0))) eq_refl).
  by vm_compute.
Defined.

Lemma X12_speech_request_witness :
  ∃ request,
    (Tts.getVoiceBase64Audio (Tts.mkEnv (Some "sk-1") (Some "false"))
       id (λ _, "QUJD") (λ _, Tts.Rejected "offline") "Hello").1
    = [request]
    ∧ Tts.input request = "Hello".
Proof.
  apply (X12_speech_request (Tts.mkEnv (Some "sk-1") (Some "false"))
           id (λ _, "QUJD") (λ _, Tts.Rejected "offline") "Hello")
    with "false"; [reflexivity | by vm_compute].
Defined.

Lemma X16_requests_carry_the_key_witness :
  ∃ key, Tts.authorization
           (Tts.mkRequest "https://api.openai.com/v1/audio/speech" "POST"
              "Bearer sk-1" "application/json" "tts-1" "onyx" "Hello")
         = "Bearer " +:+ key.
Proof.
  destruct (X16_requests_carry_the_key
              (Tts.mkEnv (Some "sk-1") (Some "1")) id (λ _, "QUJD")
              (λ _, Tts.Rejected "offline") "Hello"
              (Tts.mkRequest "https://api.openai.com/v1/audio/speech" "POST"
                 "Bearer sk-1" "application/json" "tts-1" "onyx" "Hello"))
    as (key & _ & _ & Hauth & _).
  - by vm_compute; left.
  - by exists key.
Defined.
